(** * t3tree: the in-memory page hierarchy index of [main.go]

    A shallow embedding of the resolver: the loaders that fill the
    [mysql] index from the two relations, root lookup, descendant
    enumeration, domain lookup, the ad-hoc query with its associated
    columns, the selection of the final id sequence in [main] and the
    two output modes.

    Conventions.
    - A Go [int] id is a [Z]; ids are only compared and stored, never
      computed with, so no wrap-around is involved. The one sum the
      output takes of an [int], [*nassoc+1], is taken in 64 bits.
    - A Go [map] is a [gmap]; a lookup of a missing key yields the zero
      value of the element type, written out with [default].
    - The data source is an input: a relation is the list of the results
      of [rows.Scan] on its successive rows, [None] standing for a row
      that could not be decoded.
    - [root] loops and [children] recurses without a bound; both take a
      fuel argument and return [None] when it runs out.
    - [for uid := range m.pages] visits the keys in an order the language
      leaves open; [children] takes the order of every loop it runs as an
      argument, and the theorems hold for all of them. *)

From Stdlib Require Import ZArith String Ascii.
From stdpp Require Import gmap strings list fin_maps pretty.

Local Open Scope Z_scope.

(** ** Errors and results *)

Inductive error : Type :=
  | QueryFailed                (* [m.db.Query] returned an error *)
  | ScanFailed (what : string) (* [rows.Scan] returned an error *)
  | NoDsn                      (* [log.Fatal("must have DSN as argument")] *)
  | NoUids                     (* [log.Fatal("no UIDs found")] *)
  | Panic.                     (* run-time panic: negative [make], index out of range *)

Inductive result (A : Type) : Type :=
  | Ok (a : A)
  | Err (e : error).
Arguments Ok {A} a.
Arguments Err {A} e.

(** ** The index *)

Record mysql : Type := Mysql {
  pages   : gmap Z Z;             (* uid : pid *)
  domains : gmap Z string;        (* pid : domain *)
  assoc   : gmap Z (list string); (* pid : associated data *)
  roots   : list Z                (* uid of siteroot *)
}.

Definition emptyMysql : mysql :=
  {| pages := ∅; domains := ∅; assoc := ∅; roots := [] |}.

Record PageRow : Type := { p_uid : Z; p_pid : Z; p_isroot : bool }.
Record DomainRow : Type := { d_pid : Z; d_domain : string; d_forced : bool }.

(** A row of the caller's query: the first column, when it decodes as an
    integer, and the string columns that follow it. *)
Record QueryRow : Type := { q_uid : option Z; q_cols : list string }.

Record DB : Type := {
  db_pages   : result (list (option PageRow));
  db_domains : result (list (option DomainRow));
  db_query   : string → result (list QueryRow)
}.

(** ** Relation loader *)

Definition setPage (uid pid : Z) (m : mysql) : mysql :=
  {| pages := <[uid := pid]> (pages m); domains := domains m;
     assoc := assoc m; roots := roots m |}.

Definition appendRoot (uid : Z) (m : mysql) : mysql :=
  {| pages := pages m; domains := domains m;
     assoc := assoc m; roots := roots m ++ [uid] |}.

Definition setDomain (pid : Z) (d : string) (m : mysql) : mysql :=
  {| pages := pages m; domains := <[pid := d]> (domains m);
     assoc := assoc m; roots := roots m |}.

Definition setAssoc (uid : Z) (data : list string) (m : mysql) : mysql :=
  {| pages := pages m; domains := domains m;
     assoc := <[uid := data]> (assoc m); roots := roots m |}.

(** The body of the [for rows.Next()] loop of [loadPages]. *)
Definition loadPage (r : PageRow) (m : mysql) : mysql :=
  let m1 := setPage (p_uid r) (p_pid r) m in
  if p_isroot r || (p_pid r =? 0) then appendRoot (p_uid r) m1 else m1.

Fixpoint loadPageRows (rows : list (option PageRow)) (m : mysql) : result mysql :=
  match rows with
  | [] => Ok m
  | None :: _ => Err (ScanFailed "cannot read pages row")
  | Some r :: rows' => loadPageRows rows' (loadPage r m)
  end.

Definition loadPages (db : DB) (m : mysql) : result mysql :=
  match db_pages db with
  | Err e => Err e
  | Ok rows => loadPageRows rows m
  end.

(** The body of the loop of [loadDomains]: the test on [forced] is
    commented out in the source, a bound root id is never rebound. *)
Definition loadDomain (r : DomainRow) (m : mysql) : mysql :=
  match domains m !! d_pid r with
  | Some _ => m
  | None => setDomain (d_pid r) (d_domain r) m
  end.

Fixpoint loadDomainRows (rows : list (option DomainRow)) (m : mysql) : result mysql :=
  match rows with
  | [] => Ok m
  | None :: _ => Err (ScanFailed "cannot read domains row")
  | Some r :: rows' => loadDomainRows rows' (loadDomain r m)
  end.

Definition loadDomains (db : DB) (m : mysql) : result mysql :=
  match db_domains db with
  | Err e => Err e
  | Ok rows => loadDomainRows rows m
  end.

(** [newMysql] from the point where [sql.Open] and [db.Ping] have
    succeeded: [db] is a data source that answers. *)
Definition newMysql (db : DB) : result mysql :=
  match loadPages db emptyMysql with
  | Err e => Err e
  | Ok m =>
      match loadDomains db m with
      | Err e => Err e
      | Ok m' => Ok m'
      end
  end.

(** The first version of the loader kept in the source file, before the
    associated columns were added: there the test reads [ok && !forced]. *)
Module Earlier.

Definition loadDomain (r : DomainRow) (m : mysql) : mysql :=
  match domains m !! d_pid r with
  | Some _ =>
      if negb (d_forced r) then m else setDomain (d_pid r) (d_domain r) m
  | None => setDomain (d_pid r) (d_domain r) m
  end.

Fixpoint loadDomainRows (rows : list (option DomainRow)) (m : mysql) : result mysql :=
  match rows with
  | [] => Ok m
  | None :: _ => Err (ScanFailed "cannot read domains row")
  | Some r :: rows' => loadDomainRows rows' (loadDomain r m)
  end.

Definition loadDomains (db : DB) (m : mysql) : result mysql :=
  match db_domains db with
  | Err e => Err e
  | Ok rows => loadDomainRows rows m
  end.

End Earlier.

(** ** Hierarchy index *)

Fixpoint isRootIn (rs : list Z) (pid : Z) : bool :=
  match rs with
  | [] => false
  | r :: rs' => if r =? pid then true else isRootIn rs' pid
  end.

Definition isRoot (m : mysql) (pid : Z) : bool := isRootIn (roots m) pid.

(** The [for] loop of [root], entered with a [pid] that is not a root. *)
Fixpoint rootLoop (fuel : nat) (m : mysql) (pid : Z) : option Z :=
  match fuel with
  | O => None
  | S fuel' =>
      match pages m !! pid with
      | None => Some 0
      | Some pid' => if isRoot m pid' then Some pid' else rootLoop fuel' m pid'
      end
  end.

Definition root (fuel : nat) (m : mysql) (pid : Z) : option Z :=
  if isRoot m pid then Some pid else rootLoop fuel m pid.

Definition domain (m : mysql) (pid : Z) : string :=
  default EmptyString (domains m !! pid).

(** The order in which one [range m.pages] loop visits the keys: the
    loop of the call [children(pid, pids)] visits [order pid pids]. *)
Definition rangeOrder : Type := Z → list Z → list Z.

Definition keysOf (m : mysql) : list Z := (map_to_list (pages m)).*1.

(** An order is one the language allows when every loop visits every key
    of the map once. *)
Definition rangesOver (m : mysql) (order : rangeOrder) : Prop :=
  ∀ pid pids, order pid pids ≡ₚ keysOf m.

Definition fixedOrder (m : mysql) : rangeOrder := λ _ _, keysOf m.

(** The [range] loop of [children]; [rec] is the recursive call. *)
Fixpoint childrenLoop (rec : Z → list Z → option (list Z)) (m : mysql)
    (pid : Z) (uids : list Z) (pids : list Z) : option (list Z) :=
  match uids with
  | [] => Some pids
  | uid :: uids' =>
      if default 0 (pages m !! uid) =? pid then
        match rec uid (pids ++ [uid]) with
        | None => None
        | Some pids' => childrenLoop rec m pid uids' pids'
        end
      else childrenLoop rec m pid uids' pids
  end.

Fixpoint children (fuel : nat) (order : rangeOrder) (m : mysql)
    (pid : Z) (pids : list Z) : option (list Z) :=
  match fuel with
  | O => None
  | S fuel' =>
      childrenLoop (children fuel' order m) m pid (order pid pids) pids
  end.

(** ** Associated-row query *)

(** [rows.Scan(params...)] with [nassoc + 1] destinations: an integer and
    [nassoc] strings. It fails when the first column is no integer or
    when the row has another number of columns. (It also fails on a NULL
    column, which [QueryRow] does not represent: the rows of the model
    are rows without NULL.) *)
Definition scanRow (nassoc : nat) (r : QueryRow) : option (Z * list string) :=
  match q_uid r with
  | None => None
  | Some uid =>
      if decide (length (q_cols r) = nassoc) then Some (uid, q_cols r) else None
  end.

Fixpoint queryRows (nassoc : nat) (rows : list QueryRow) (m : mysql)
    (uids : list Z) : result (list Z * mysql) :=
  match rows with
  | [] => Ok (uids, m)
  | r :: rows' =>
      match scanRow nassoc r with
      | None => Err (ScanFailed "cannot scan query")
      | Some (uid, data) =>
          queryRows nassoc rows' (setAssoc uid data m) (uids ++ [uid])
      end
  end.

Definition query (db : DB) (m : mysql) (sql : string) (nassoc : Z)
    : result (list Z * mysql) :=
  match db_query db sql with
  | Err e => Err e
  | Ok rows =>
      if nassoc <? 0 then Err Panic (* make([]*string, nassoc) *)
      else queryRows (Z.to_nat nassoc) rows m []
  end.

(** ** Formatting *)

Definition itoa (v : Z) : string := pretty v.

Definition intsToString (a : list Z) (sep : string) : string :=
  match a with
  | [] => EmptyString
  | _ => String.concat sep (itoa <$> a)
  end.

Definition dquote : ascii := "034"%char.
Definition backslash : ascii := "092"%char.

(** [strings.Replace(s, dquote, backslash dquote, -1)] *)
Fixpoint escapeQuotes (s : string) : string :=
  match s with
  | EmptyString => EmptyString
  | String c s' =>
      if Ascii.eqb c dquote then String backslash (String dquote (escapeQuotes s'))
      else String c (escapeQuotes s')
  end.

Definition quoted (s : string) : string :=
  String dquote (s +:+ String dquote EmptyString).

Definition urlOf (dom : string) (uid : Z) : string :=
  "https://" +:+ dom +:+ "/index.php?id=" +:+ itoa uid.

(** ** Selection of the ids and output, as in [main] *)

Record Flags : Type := {
  f_pid : Z;
  f_dsn : string;
  f_query : string;
  f_nassoc : Z;
  f_children : bool;
  f_roots : bool;
  f_csv : bool
}.

(** The block [if *pid > 0 { ... }], from [uids = nil]. *)
Definition selectPid (fuel : nat) (order : rangeOrder) (m : mysql)
    (fl : Flags) : option (list Z) :=
  if 0 <? f_pid fl then
    uids1 ← (if f_children fl then children fuel order m (f_pid fl) [] else Some []);
    uids2 ← (if f_roots fl then r ← root fuel m (f_pid fl); Some (uids1 ++ [r])
             else Some uids1);
    Some (if negb (f_children fl) && negb (f_roots fl) then uids2 ++ [f_pid fl]
          else uids2)
  else Some [].

(** [for _, qid := range qids { uids = m.children(qid, uids) }] *)
Fixpoint childrenEach (fuel : nat) (order : rangeOrder) (m : mysql)
    (qids : list Z) (uids : list Z) : option (list Z) :=
  match qids with
  | [] => Some uids
  | qid :: qids' =>
      uids' ← children fuel order m qid uids;
      childrenEach fuel order m qids' uids'
  end.

(** [for _, qid := range qids { uids = append(uids, m.root(qid)) }] *)
Fixpoint rootEach (fuel : nat) (m : mysql) (qids : list Z) (uids : list Z)
    : option (list Z) :=
  match qids with
  | [] => Some uids
  | qid :: qids' =>
      r ← root fuel m qid;
      rootEach fuel m qids' (uids ++ [r])
  end.

(** The three tests that follow the call of [m.query]. *)
Definition selectQids (fuel : nat) (order : rangeOrder) (m : mysql)
    (fl : Flags) (qids : list Z) (uids : list Z) : option (list Z) :=
  uids1 ← (if f_children fl then childrenEach fuel order m qids uids else Some uids);
  uids2 ← (if f_roots fl then rootEach fuel m qids uids1 else Some uids1);
  Some (if negb (f_children fl) && negb (f_roots fl) then qids else uids2).

(** The ids [main] goes on with, and the index after the query. *)
Definition selectUids (fuel : nat) (order : rangeOrder) (db : DB) (m : mysql)
    (fl : Flags) : option (result (list Z * mysql)) :=
  uids ← selectPid fuel order m fl;
  if decide (f_query fl = EmptyString) then Some (Ok (uids, m))
  else
    match query db m (f_query fl) (f_nassoc fl) with
    | Err e => Some (Err e)
    | Ok (qids, m') =>
        uids' ← selectQids fuel order m' fl qids uids;
        Some (Ok (uids', m'))
    end.

(** [fields[i] = v] *)
Definition setField (i : nat) (v : string) (fields : list string)
    : result (list string) :=
  if decide (i < length fields)%nat then Ok (<[i := v]> fields) else Err Panic.

(** [for i := range assoc { fields[i+1] = ... }], from index [i]. *)
Fixpoint fillFields (i : nat) (data : list string) (fields : list string)
    : result (list string) :=
  match data with
  | [] => Ok fields
  | a :: data' =>
      match setField (i + 1) (quoted (escapeQuotes a)) fields with
      | Err e => Err e
      | Ok fields' => fillFields (S i) data' fields'
      end
  end.

(** The printing of one id whose domain is bound: the buffer afterwards
    and the line printed. *)
Definition printRow (nassoc : Z) (m : mysql) (dom : string) (uid : Z)
    (fields : list string) : result (list string * string) :=
  if 0 <? nassoc then
    match setField 0 (quoted (urlOf dom uid)) fields with
    | Err e => Err e
    | Ok fields1 =>
        match fillFields 0 (default [] (assoc m !! uid)) fields1 with
        | Err e => Err e
        | Ok fields2 => Ok (fields2, String.concat "," fields2)
        end
    end
  else Ok (fields, urlOf dom uid).

(** The loop [for _, uid := range uids] of the URL mode: the buffer at the
    end and the lines printed, in order. *)
Fixpoint urlLoop (fuel : nat) (nassoc : Z) (m : mysql) (uids : list Z)
    (fields : list string) (out : list string)
    : option (result (list string * list string)) :=
  match uids with
  | [] => Some (Ok (fields, out))
  | uid :: uids' =>
      match root fuel m uid with
      | None => None
      | Some rid =>
          let dom := domain m rid in
          if decide (dom = EmptyString) then urlLoop fuel nassoc m uids' fields out
          else
            match printRow nassoc m dom uid fields with
            | Err e => Some (Err e)
            | Ok (fields', line) =>
                urlLoop fuel nassoc m uids' fields' (out ++ [line])
            end
      end
  end.

(** The range of the Go [int] of a 64-bit target, and the value an
    arithmetic result takes in it. *)
Definition maxInt : Z := 9223372036854775807.
Definition minInt : Z := -9223372036854775808.

Definition wrap64 (z : Z) : Z :=
  (z - minInt) mod 18446744073709551616 + minInt.

(** [make([]string, n)]: a negative length panics. [Ok] is the slice of an
    allocation that succeeds. *)
Definition makeStrings (n : Z) : result (list string) :=
  if n <? 0 then Err Panic else Ok (replicate (Z.to_nat n) EmptyString).

Definition output (fuel : nat) (m : mysql) (fl : Flags) (uids : list Z)
    : option (result (list string)) :=
  if f_csv fl then Some (Ok [intsToString uids ", "])
  else
    match makeStrings (wrap64 (f_nassoc fl + 1)) with
    | Err e => Some (Err e)
    | Ok fields =>
        match urlLoop fuel (f_nassoc fl) m uids fields [] with
        | None => None
        | Some (Err e) => Some (Err e)
        | Some (Ok (_, out)) => Some (Ok out)
        end
    end.

(** [main] from the declaration of [uids] on: the lines written to the
    standard output, or the fatal error. *)
Definition mainOn (fuel : nat) (order : rangeOrder) (db : DB) (m : mysql)
    (fl : Flags) : option (result (list string)) :=
  match selectUids fuel order db m fl with
  | None => None
  | Some (Err e) => Some (Err e)
  | Some (Ok (uids, m')) =>
      match uids with
      | [] => Some (Err NoUids)
      | _ => output fuel m' fl uids
      end
  end.

(** [main] after the flags are parsed. *)
Definition main (fuel : nat) (order : rangeOrder) (db : DB) (fl : Flags)
    : option (result (list string)) :=
  if decide (f_dsn fl = EmptyString) then Some (Err NoDsn)
  else
    match newMysql db with
    | Err e => Some (Err e)
    | Ok m => mainOn fuel order db m fl
    end.

(** ** Vocabulary of the statements *)

(** The id reached from [id] by [k] parent-pointer hops, if the parent
    map has an entry at each of them. *)
Fixpoint ancestor (m : mysql) (k : nat) (id : Z) : option Z :=
  match k with
  | O => Some id
  | S k' =>
      match pages m !! id with
      | None => None
      | Some p => ancestor m k' p
      end
  end.

(** [x] reaches [y] by one or more hops. *)
Definition reaches (m : mysql) (x y : Z) : Prop :=
  ∃ k, ancestor m (S k) x = Some y.

Definition acyclic (m : mysql) : Prop := ∀ x, ¬ reaches m x x.

(** [d] lists the descendants of [y], each of them once. *)
Definition descendantsOf (m : mysql) (y : Z) (d : list Z) : Prop :=
  NoDup d ∧ ∀ x, x ∈ d ↔ reaches m x y.

(** Every page whose parent id is 0 is in the root list. *)
Definition topLevelAreRoots (m : mysql) : Prop :=
  ∀ x, pages m !! x = Some 0 → x ∈ roots m.

(** The domain of the first row of the relation whose root id is [r]. *)
Fixpoint firstBinding (r : Z) (rows : list DomainRow) : option string :=
  match rows with
  | [] => None
  | row :: rows' =>
      if d_pid row =? r then Some (d_domain row) else firstBinding r rows'
  end.

(** ** Concrete inputs *)

Definition pageRow (uid pid : Z) (isroot : bool) : option PageRow :=
  Some {| p_uid := uid; p_pid := pid; p_isroot := isroot |}.

Definition domainRow (pid : Z) (d : string) (forced : bool) : DomainRow :=
  {| d_pid := pid; d_domain := d; d_forced := forced |}.

(** The three rows of the precedence example, for the root id [r]. *)
Definition threeRows (r : Z) : list DomainRow :=
  [domainRow r "a" false; domainRow r "b" false; domainRow r "c" true].

Definition indexOf (rows : list (option PageRow)) : mysql :=
  match loadPageRows rows emptyMysql with
  | Ok m => m
  | Err _ => emptyMysql
  end.

(** A site: page 1 at the top, 2 and 4 under it, 3 under 2. *)
Definition site : mysql :=
  indexOf [pageRow 1 0 true; pageRow 2 1 false; pageRow 3 2 false;
           pageRow 4 1 false].

(** Two pages that are each other's parent, neither of them a root, and
    a third page under one of them. *)
Definition looped : mysql :=
  indexOf [pageRow 1 2 false; pageRow 2 1 false; pageRow 3 1 false].

(** A page whose parent has no row. *)
Definition orphan : mysql :=
  indexOf [pageRow 1 0 true; pageRow 3 2 false].

(** A page with uid 0 below the top-level page 5. *)
Definition zeroPage : mysql :=
  indexOf [pageRow 0 5 false; pageRow 5 0 false].

(** A data source whose ad-hoc query yields the given rows. *)
Definition queryDB (rows : list QueryRow) : DB :=
  {| db_pages := Err QueryFailed; db_domains := Err QueryFailed;
     db_query := λ _, Ok rows |}.

Definition bareRow (uid : Z) : QueryRow := {| q_uid := Some uid; q_cols := [] |}.

(** A data source whose domain relation is the three rows for root id 7. *)
Definition threeDB : DB :=
  {| db_pages := Ok []; db_domains := Ok (Some <$> threeRows 7);
     db_query := λ _, Err QueryFailed |}.

(** A data source whose top-level page 1 is not flagged as a root. *)
Definition flatDB : DB :=
  {| db_pages := Ok [pageRow 1 0 false; pageRow 2 1 false];
     db_domains := Ok []; db_query := λ _, Err QueryFailed |}.

(** The site with a domain bound to its root, and an ad-hoc query that
    yields page 2 with two associated columns. *)
Definition shopDB : DB :=
  {| db_pages := Ok [pageRow 1 0 true; pageRow 2 1 false; pageRow 3 2 false;
                     pageRow 4 1 false];
     db_domains := Ok [Some (domainRow 1 "example.com" false)];
     db_query := λ _, Ok [{| q_uid := Some 2; q_cols := ["x"; "y"]%string |}] |}.

Definition shop : mysql :=
  match newMysql shopDB with
  | Ok m =>
      match query shopDB m "SELECT uid, a, b FROM t" 2 with
      | Ok (_, m') => m'
      | Err _ => m
      end
  | Err _ => emptyMysql
  end.

(** Explicit id 3 and the root transform, URL output. *)
Definition rootFlags : Flags :=
  {| f_pid := 3; f_dsn := "dsn"; f_query := EmptyString;
     f_nassoc := 0; f_children := false; f_roots := true; f_csv := false |}.

(** Explicit id 7 and a query, neither transform flag set. *)
Definition plainFlags : Flags :=
  {| f_pid := 7; f_dsn := "dsn"; f_query := "SELECT uid FROM t";
     f_nassoc := 0; f_children := false; f_roots := false; f_csv := true |}.


(** ** Vocabulary of the further properties *)

(** The parent id of the last row of the pages relation whose uid is [x]. *)
Fixpoint lastParent (x : Z) (rows : list PageRow) : option Z :=
  match rows with
  | [] => None
  | r :: rows' =>
      match lastParent x rows' with
      | Some p => Some p
      | None => if p_uid r =? x then Some (p_pid r) else None
      end
  end.

(** The domain of the last forced row of the relation whose root id is [r]. *)
Fixpoint lastForced (r : Z) (rows : list DomainRow) : option string :=
  match rows with
  | [] => None
  | row :: rows' =>
      match lastForced r rows' with
      | Some d => Some d
      | None =>
          if (d_pid row =? r) && d_forced row then Some (d_domain row) else None
      end
  end.

(** The columns of the last row of a query result whose id is [id]. *)
Fixpoint lastCols (id : Z) (rows : list QueryRow) : option (list string) :=
  match rows with
  | [] => None
  | r :: rows' =>
      match lastCols id rows' with
      | Some d => Some d
      | None =>
          if decide (q_uid r = Some id) then Some (q_cols r) else None
      end
  end.

(** Every parent id other than 0 is itself a page. *)
Definition noOrphans (m : mysql) : Prop :=
  ∀ x p, pages m !! x = Some p → p ≠ 0 → is_Some (pages m !! p).

(** Every entry of the associated data has [n] values. *)
Definition assocWidth (n : nat) (m : mysql) : Prop :=
  ∀ id data, assoc m !! id = Some data → length data = n.

(** The id is printed in URL mode: its root is found and has a domain. *)
Definition printed (fuel : nat) (m : mysql) (uid : Z) : bool :=
  match root fuel m uid with
  | Some rid => negb (String.eqb (domain m rid) EmptyString)
  | None => false
  end.

(** The associated data of the ids among [uids] that URL mode prints and
    that have some, in the order of the ids. *)
Definition printedData (fuel : nat) (m : mysql) (uids : list Z)
    : list (list string) :=
  omap (λ u, if printed fuel m u then assoc m !! u else None) uids.

(** The fields an id without associated data is printed with after the
    ids [uids]: the values, quoted and escaped, of the last of them that
    was printed and has associated data, and [n] empty strings when
    there is none. *)
Definition staleFields (fuel : nat) (n : nat) (m : mysql) (uids : list Z)
    : list string :=
  match last (printedData fuel m uids) with
  | Some data => (λ a, quoted (escapeQuotes a)) <$> data
  | None => replicate n EmptyString
  end.

(** A row of the associated columns as URL mode prints it. *)
Definition rowOf (dom : string) (uid : Z) (data : list string) : list string :=
  quoted (urlOf dom uid) :: ((λ a, quoted (escapeQuotes a)) <$> data).

(** A domain relation with two forced rows for root id 7 among others. *)
Definition forcedRows : list DomainRow :=
  [domainRow 7 "a" false; domainRow 7 "b" true; domainRow 8 "x" false;
   domainRow 7 "c" true; domainRow 7 "d" false].

Definition forcedDB : DB :=
  {| db_pages := Ok []; db_domains := Ok (Some <$> forcedRows);
     db_query := λ _, Err QueryFailed |}.

(** A pages relation that names page 2 twice and flags it as a root once. *)
Definition twiceRows : list PageRow :=
  [{| p_uid := 1; p_pid := 0; p_isroot := false |};
   {| p_uid := 2; p_pid := 9; p_isroot := true |};
   {| p_uid := 2; p_pid := 1; p_isroot := false |}].

Definition twiceDB : DB :=
  {| db_pages := Ok (Some <$> twiceRows); db_domains := Ok [];
     db_query := λ _, Err QueryFailed |}.

(** The line URL mode prints for an id when no associated column is asked
    for, if it prints one. *)
Definition urlLine (fuel : nat) (m : mysql) (uid : Z) : option string :=
  match root fuel m uid with
  | Some rid =>
      if decide (domain m rid = EmptyString) then None
      else Some (urlOf (domain m rid) uid)
  | None => None
  end.

(** An ad-hoc query that yields the id 5 twice, with two columns. *)
Definition overwriteRows : list QueryRow :=
  [{| q_uid := Some 5; q_cols := ["x"; "y"]%string |};
   {| q_uid := Some 6; q_cols := ["p"; "q"]%string |};
   {| q_uid := Some 5; q_cols := ["z"; "w"]%string |}].

(** The index of the shop before the ad-hoc query runs. *)
Definition shopIndex : mysql :=
  match newMysql shopDB with
  | Ok m => m
  | Err _ => emptyMysql
  end.

(** The character occurs in the string. *)
Fixpoint hasChar (c : ascii) (s : string) : bool :=
  match s with
  | EmptyString => false
  | String d s' => Ascii.eqb d c || hasChar c s'
  end.

Definition comma : ascii := ","%char.

(** ** The run of the first version

    The first version of [query] and [main] kept in the source file: the
    query scans one integer per row and records nothing, and URL mode
    prints the bare URL. The blocks that select the ids are the same text
    in both versions, so [selectPid] and [selectQids] serve both. *)
Module EarlierRun.

Fixpoint queryRows (rows : list QueryRow) (uids : list Z) : result (list Z) :=
  match rows with
  | [] => Ok uids
  | r :: rows' =>
      match scanRow 0 r with
      | None => Err (ScanFailed "cannot scan query")
      | Some (uid, _) => queryRows rows' (uids ++ [uid])
      end
  end.

Definition query (db : DB) (sql : string) : result (list Z) :=
  match db_query db sql with
  | Err e => Err e
  | Ok rows => queryRows rows []
  end.

Definition selectUids (fuel : nat) (order : rangeOrder) (db : DB) (m : mysql)
    (fl : Flags) : option (result (list Z)) :=
  uids ← selectPid fuel order m fl;
  if decide (f_query fl = EmptyString) then Some (Ok uids)
  else
    match query db (f_query fl) with
    | Err e => Some (Err e)
    | Ok qids =>
        uids' ← selectQids fuel order m fl qids uids;
        Some (Ok uids')
    end.

Fixpoint urlLoop (fuel : nat) (m : mysql) (uids : list Z) (out : list string)
    : option (list string) :=
  match uids with
  | [] => Some out
  | uid :: uids' =>
      match root fuel m uid with
      | None => None
      | Some rid =>
          let dom := domain m rid in
          if decide (dom = EmptyString) then urlLoop fuel m uids' out
          else urlLoop fuel m uids' (out ++ [urlOf dom uid])
      end
  end.

Definition output (fuel : nat) (m : mysql) (fl : Flags) (uids : list Z)
    : option (result (list string)) :=
  if f_csv fl then Some (Ok [intsToString uids ", "])
  else
    match urlLoop fuel m uids [] with
    | None => None
    | Some out => Some (Ok out)
    end.

Definition mainOn (fuel : nat) (order : rangeOrder) (db : DB) (m : mysql)
    (fl : Flags) : option (result (list string)) :=
  match selectUids fuel order db m fl with
  | None => None
  | Some (Err e) => Some (Err e)
  | Some (Ok uids) =>
      match uids with
      | [] => Some (Err NoUids)
      | _ => output fuel m fl uids
      end
  end.

End EarlierRun.

(** Both transforms on the shop, with a query, URL output. *)
Definition shopFlags : Flags :=
  {| f_pid := 2; f_dsn := "dsn"; f_query := "SELECT uid FROM t";
     f_nassoc := 0; f_children := true; f_roots := true; f_csv := false |}.

(** * Properties *)

(** ** The root list *)

Lemma isRootIn_elem (rs : list Z) (x : Z) : isRootIn rs x = true ↔ x ∈ rs.
Proof.
  induction rs as [|r rs IH]; simpl.
  - split; [discriminate | by intros ?%elem_of_nil].
  - rewrite elem_of_cons. destruct (Z.eqb_spec r x) as [->|Hne].
    + split; auto.
    + rewrite IH. split; [auto | intros [?|?]; congruence].
Qed.

Lemma isRoot_elem (m : mysql) (x : Z) : isRoot m x = true ↔ x ∈ roots m.
Proof. apply isRootIn_elem. Qed.

Lemma root_of_root (m : mysql) (x : Z) (fuel : nat) :
  isRoot m x = true → root fuel m x = Some x.
Proof. intros H. unfold root. by rewrite H. Qed.

(** ** Fuel *)

(** More fuel does not change what [root] and [children] return. *)
Lemma rootLoop_mono (m : mysql) (fuel fuel' : nat) :
  (fuel ≤ fuel')%nat →
  ∀ x r, rootLoop fuel m x = Some r → rootLoop fuel' m x = Some r.
Proof.
  revert fuel'. induction fuel as [|fuel IH]; intros fuel' Hle x r;
    [discriminate|].
  destruct fuel' as [|fuel']; [lia|]. simpl.
  destruct (pages m !! x) as [p|]; [|done].
  destruct (isRoot m p); [done|]. apply IH. lia.
Qed.

Lemma root_mono (m : mysql) (fuel fuel' : nat) (x r : Z) :
  (fuel ≤ fuel')%nat → root fuel m x = Some r → root fuel' m x = Some r.
Proof.
  intros Hle. unfold root. destruct (isRoot m x); [done|].
  by apply rootLoop_mono.
Qed.

Lemma childrenLoop_mono (rec rec' : Z → list Z → option (list Z))
    (m : mysql) (pid : Z) :
  (∀ u acc r, rec u acc = Some r → rec' u acc = Some r) →
  ∀ uids pids r,
    childrenLoop rec m pid uids pids = Some r →
    childrenLoop rec' m pid uids pids = Some r.
Proof.
  intros Hrec. induction uids as [|uid uids IH]; intros pids r; simpl; [done|].
  destruct (default 0 (pages m !! uid) =? pid); [|apply IH].
  destruct (rec uid (pids ++ [uid])) as [pids'|] eqn:E; [|discriminate].
  rewrite (Hrec _ _ _ E). apply IH.
Qed.

Lemma children_mono (order : rangeOrder) (m : mysql) (fuel fuel' : nat) :
  (fuel ≤ fuel')%nat →
  ∀ pid pids r,
    children fuel order m pid pids = Some r →
    children fuel' order m pid pids = Some r.
Proof.
  revert fuel'. induction fuel as [|fuel IH]; intros fuel' Hle pid pids r;
    [discriminate|].
  destruct fuel' as [|fuel']; [lia|]. simpl.
  apply childrenLoop_mono. intros u acc r'. apply IH. lia.
Qed.

(** ** Loading *)

Lemma loadDomain_frame (r : DomainRow) (m : mysql) :
  pages (loadDomain r m) = pages m ∧ roots (loadDomain r m) = roots m
  ∧ assoc (loadDomain r m) = assoc m.
Proof. unfold loadDomain. by destruct (domains m !! d_pid r). Qed.

Lemma loadDomainRows_frame (rows : list (option DomainRow)) (m m' : mysql) :
  loadDomainRows rows m = Ok m' →
  pages m' = pages m ∧ roots m' = roots m ∧ assoc m' = assoc m.
Proof.
  revert m. induction rows as [|[r|] rows IH]; intros m H; simpl in H.
  - by inversion H.
  - destruct (IH _ H) as (Hp & Hr & Ha).
    destruct (loadDomain_frame r m) as (Hp' & Hr' & Ha').
    repeat split; congruence.
  - discriminate.
Qed.

Lemma loadDomain_lookup (row : DomainRow) (m : mysql) (r : Z) :
  domains (loadDomain row m) !! r =
  match domains m !! r with
  | Some d => Some d
  | None => if d_pid row =? r then Some (d_domain row) else None
  end.
Proof.
  unfold loadDomain. destruct (Z.eqb_spec (d_pid row) r) as [->|Hne].
  - destruct (domains m !! r) eqn:E; rewrite ?E; [done|].
    simpl. by rewrite lookup_insert_eq.
  - destruct (domains m !! d_pid row) eqn:E.
    + by destruct (domains m !! r).
    + simpl. rewrite lookup_insert_ne by done. by destruct (domains m !! r).
Qed.

Lemma loadDomainRows_lookup (rs : list DomainRow) (m : mysql) (r : Z) :
  ∃ m', loadDomainRows (Some <$> rs) m = Ok m' ∧
    domains m' !! r =
    match domains m !! r with
    | Some d => Some d
    | None => firstBinding r rs
    end.
Proof.
  revert m. induction rs as [|row rs IH]; intros m; simpl.
  - exists m. split; [done|]. by destruct (domains m !! r).
  - destruct (IH (loadDomain row m)) as (m' & Hm' & Hl).
    exists m'. split; [done|]. rewrite Hl, loadDomain_lookup.
    destruct (domains m !! r); [done|]. by destruct (d_pid row =? r).
Qed.

Lemma loadPageRows_total (rs : list PageRow) (m : mysql) :
  ∃ m', loadPageRows (Some <$> rs) m = Ok m' ∧ domains m' = domains m.
Proof.
  revert m. induction rs as [|r rs IH]; intros m; simpl.
  - by exists m.
  - destruct (IH (loadPage r m)) as (m' & Hm' & Hd).
    exists m'. split; [done|]. rewrite Hd. unfold loadPage.
    by destruct (p_isroot r || (p_pid r =? 0)).
Qed.

Lemma firstBinding_threeRows (r : Z) : firstBinding r (threeRows r) = Some "a"%string.
Proof. simpl. by rewrite Z.eqb_refl. Qed.

Lemma loadPage_topLevel (r : PageRow) (m : mysql) :
  topLevelAreRoots m → topLevelAreRoots (loadPage r m).
Proof.
  intros Hm x. unfold loadPage.
  destruct (decide (x = p_uid r)) as [->|Hne].
  - destruct (Z.eqb_spec (p_pid r) 0) as [E|E].
    + rewrite orb_true_r. simpl. intros _. apply elem_of_app. right.
      by apply list_elem_of_singleton.
    + rewrite orb_false_r. destruct (p_isroot r); simpl;
        rewrite lookup_insert_eq; intros [=]; congruence.
  - destruct (p_isroot r || (p_pid r =? 0)); simpl;
      rewrite lookup_insert_ne by done; intros H%Hm; [|done].
    apply elem_of_app. by left.
Qed.

Lemma loadPageRows_topLevel (rows : list (option PageRow)) (m m' : mysql) :
  topLevelAreRoots m → loadPageRows rows m = Ok m' → topLevelAreRoots m'.
Proof.
  revert m. induction rows as [|[r|] rows IH]; intros m Hm H; simpl in H.
  - by inversion H; subst.
  - eapply IH; [|done]. by apply loadPage_topLevel.
  - discriminate.
Qed.

Lemma newMysql_inv (db : DB) (m : mysql) :
  newMysql db = Ok m →
  ∃ prs drs m1, db_pages db = Ok prs ∧ db_domains db = Ok drs
    ∧ loadPageRows prs emptyMysql = Ok m1 ∧ loadDomainRows drs m1 = Ok m.
Proof.
  unfold newMysql, loadPages, loadDomains.
  destruct (db_pages db) as [prs|]; [|discriminate].
  destruct (loadPageRows prs emptyMysql) as [m1|] eqn:E1; [|discriminate].
  destruct (db_domains db) as [drs|]; [|discriminate].
  destruct (loadDomainRows drs m1) as [m2|] eqn:E2; [|discriminate].
  intros [= <-]. by exists prs, drs, m1.
Qed.

Lemma newMysql_topLevel (db : DB) (m : mysql) :
  newMysql db = Ok m → topLevelAreRoots m.
Proof.
  intros (prs & drs & m1 & _ & _ & H1 & H2)%newMysql_inv.
  destruct (loadDomainRows_frame _ _ _ H2) as (Hp & Hr & _).
  intros x. rewrite Hp, Hr.
  eapply loadPageRows_topLevel; [|exact H1].
  intros y. simpl. by rewrite lookup_empty.
Qed.

(** An end-to-end run: on the site with the domain of page 1 bound, the
    explicit id 3 with the root transform prints the URL of page 1. *)
Example main_end_to_end :
  main 3 (λ _ _, []) shopDB rootFlags
  = Some (Ok ["https://example.com/index.php?id=1"%string]).
Proof. vm_compute. reflexivity. Qed.

(** C1, as amended. When both relations load, the domain bound to a root
    id is the one of the first row of the domain relation that names it,
    whatever the forced flags of the rows after it: the test on [forced]
    is commented out in [loadDomains]. For the three rows a, b, c (the
    last one forced) of a root id, its domain is a. *)
Theorem first_binding_is_kept (db : DB) (prs : list PageRow)
    (drs : list DomainRow) (r : Z) :
  db_pages db = Ok (Some <$> prs) →
  db_domains db = Ok (Some <$> drs) →
  ∃ m, newMysql db = Ok m
    ∧ domains m !! r = firstBinding r drs
    ∧ (drs = threeRows r → domain m r = "a"%string).
Proof.
  intros Hp Hd. unfold newMysql, loadPages, loadDomains. rewrite Hp, Hd.
  destruct (loadPageRows_total prs emptyMysql) as (m1 & -> & Hdom).
  destruct (loadDomainRows_lookup drs m1 r) as (m & Hm & Hl).
  exists m. rewrite Hdom in Hl. simpl in Hl. rewrite lookup_empty in Hl.
  destruct (loadDomainRows (Some <$> drs) m1) as [m2|]; [|discriminate].
  inversion Hm; subst m2. split; [done|]. split; [done|].
  intros ->. unfold domain. by rewrite Hl, firstBinding_threeRows.
Qed.

Lemma first_binding_is_kept_witness :
  ∃ m, newMysql threeDB = Ok m
    ∧ domains m !! 7 = firstBinding 7 (threeRows 7)
    ∧ (threeRows 7 = threeRows 7 → domain m 7 = "a"%string).
Proof. apply (first_binding_is_kept threeDB [] (threeRows 7) 7); reflexivity. Defined.

(** C1 as stated fails: after the rows a, b and the forced row c for root
    id 7 are loaded, the domain of 7 is a, not c. *)
Lemma forced_row_does_not_rebind :
  ∃ m, newMysql threeDB = Ok m
    ∧ domain m 7 = "a"%string ∧ domain m 7 ≠ "c"%string.
Proof.
  eexists. split; [reflexivity|].
  split; [vm_compute; reflexivity | vm_compute; discriminate].
Qed.

(** The first version of the loader does what C1 says on the three rows. *)
Lemma earlier_forced_row_rebinds (r : Z) :
  ∃ m, Earlier.loadDomainRows (Some <$> threeRows r) emptyMysql = Ok m
    ∧ domain m r = "c"%string.
Proof.
  eexists. split; [reflexivity|]. unfold domain. simpl.
  unfold Earlier.loadDomain. simpl. rewrite lookup_empty. simpl.
  rewrite lookup_insert_eq. simpl. rewrite lookup_insert_eq. simpl.
  by rewrite lookup_insert_eq.
Qed.

(** C5. After the index is loaded, every id whose parent id in the
    parent map is 0 is a root and is its own root, whatever the root flag
    of its row was. *)
Theorem top_level_is_root (db : DB) (m : mysql) (x : Z) :
  newMysql db = Ok m →
  pages m !! x = Some 0 →
  isRoot m x = true ∧ ∀ fuel, root fuel m x = Some x.
Proof.
  intros Hm Hx.
  assert (isRoot m x = true) as Hr.
  { apply isRoot_elem. by eapply newMysql_topLevel. }
  split; [done|]. intros fuel. by apply root_of_root.
Qed.

Lemma top_level_is_root_witness :
  ∃ m, newMysql flatDB = Ok m
    ∧ isRoot m 1 = true ∧ ∀ fuel, root fuel m 1 = Some 1.
Proof.
  eexists. split; [reflexivity|].
  apply (top_level_is_root flatDB); [reflexivity | vm_compute; reflexivity].
Defined.

(** ** Parent-pointer hops *)

Lemma ancestor_add (m : mysql) (a b : nat) (x : Z) :
  ancestor m (a + b) x = ancestor m a x ≫= ancestor m b.
Proof.
  revert x. induction a as [|a IH]; intros x; simpl; [done|].
  destruct (pages m !! x); [apply IH | done].
Qed.

Lemma ancestor_split (m : mysql) (a b : nat) (x y : Z) :
  ancestor m (a + b) x = Some y →
  ∃ z, ancestor m a x = Some z ∧ ancestor m b z = Some y.
Proof.
  rewrite ancestor_add. destruct (ancestor m a x) as [z|]; [|done].
  simpl. intros H. by exists z.
Qed.

Lemma ancestor_join (m : mysql) (a b : nat) (x y z : Z) :
  ancestor m a x = Some z → ancestor m b z = Some y →
  ancestor m (a + b) x = Some y.
Proof. intros Ha Hb. rewrite ancestor_add, Ha. exact Hb. Qed.

Lemma ancestor_one (m : mysql) (x y : Z) :
  ancestor m 1 x = Some y ↔ pages m !! x = Some y.
Proof. simpl. by destruct (pages m !! x). Qed.

Lemma ancestor_snoc (m : mysql) (k : nat) (x u y : Z) :
  ancestor m k x = Some u → pages m !! u = Some y →
  ancestor m (S k) x = Some y.
Proof.
  intros Hk Hu. replace (S k) with (k + 1)%nat by lia.
  eapply ancestor_join; [exact Hk|]. by apply ancestor_one.
Qed.

Lemma ancestor_last (m : mysql) (k : nat) (x y : Z) :
  ancestor m (S k) x = Some y →
  ∃ u, ancestor m k x = Some u ∧ pages m !! u = Some y.
Proof.
  replace (S k) with (k + 1)%nat by lia.
  intros (u & Hu & H1)%ancestor_split. exists u. split; [done|].
  by apply ancestor_one.
Qed.

Lemma ancestor_later (m : mysql) (i j : nat) (x u v : Z) :
  (i ≤ j)%nat → ancestor m i x = Some u → ancestor m j x = Some v →
  ancestor m (j - i) u = Some v.
Proof.
  intros Hij Hi Hj. replace j with (i + (j - i))%nat in Hj by lia.
  apply ancestor_split in Hj as (z & Hz & H). congruence.
Qed.

(** ** Root lookup *)

Lemma rootLoop_found (m : mysql) (k : nat) :
  ∀ (fuel : nat) (id r : Z),
    ancestor m (S k) id = Some r →
    isRoot m r = true →
    (∀ j x, (1 ≤ j ≤ k)%nat → ancestor m j id = Some x → isRoot m x = false) →
    (k < fuel)%nat →
    rootLoop fuel m id = Some r.
Proof.
  induction k as [|k IH]; intros fuel id r Hr Hroot Hmid Hfuel;
    (destruct fuel as [|fuel]; [lia|]); simpl in Hr |- *;
    destruct (pages m !! id) as [p|] eqn:Hp; try discriminate.
  - inversion Hr; subst p. by rewrite Hroot.
  - rewrite (Hmid 1%nat p); [|lia|by apply ancestor_one].
    apply IH; [done | done | | lia].
    intros j x Hj Hx. apply (Hmid (S j)); [lia|]. simpl. by rewrite Hp.
Qed.

Lemma rootLoop_broken (m : mysql) (k : nat) :
  ∀ (fuel : nat) (id x : Z),
    ancestor m k id = Some x →
    pages m !! x = None →
    (∀ j y, (1 ≤ j ≤ k)%nat → ancestor m j id = Some y → isRoot m y = false) →
    (k < fuel)%nat →
    rootLoop fuel m id = Some 0.
Proof.
  induction k as [|k IH]; intros fuel id x Hx Hnone Hmid Hfuel;
    (destruct fuel as [|fuel]; [lia|]); simpl in Hx |- *.
  - inversion Hx; subst x. by rewrite Hnone.
  - destruct (pages m !! id) as [p|] eqn:Hp; [|discriminate].
    rewrite (Hmid 1%nat p); [|lia|by apply ancestor_one].
    apply (IH _ _ x); [done | done | | lia].
    intros j y Hj Hy. apply (Hmid (S j)); [lia|]. simpl. by rewrite Hp.
Qed.

Lemma rootLoop_result (m : mysql) (fuel : nat) :
  ∀ (x r : Z), rootLoop fuel m x = Some r → isRoot m r = true ∨ r = 0.
Proof.
  induction fuel as [|fuel IH]; intros x r; simpl; [discriminate|].
  destruct (pages m !! x) as [p|]; [|intros [= <-]; by right].
  destruct (isRoot m p) eqn:Hp; [intros [= <-]; by left | apply IH].
Qed.

Lemma rootLoop_unbounded (m : mysql) (fuel : nat) :
  ∀ x : Z,
    (∀ j, ∃ y, ancestor m j x = Some y ∧ isRoot m y = false) →
    rootLoop fuel m x = None.
Proof.
  induction fuel as [|fuel IH]; intros x Hx; simpl; [done|].
  destruct (Hx 1%nat) as (p & Hp & Hroot).
  apply ancestor_one in Hp. rewrite Hp, Hroot. apply IH.
  intros j. destruct (Hx (S j)) as (y & Hy & Hyr). exists y.
  split; [|done]. simpl in Hy. by rewrite Hp in Hy.
Qed.

Lemma cycle_unrolls (m : mysql) (n : nat) (c : Z) :
  ancestor m (S n) c = Some c →
  ∀ j, ∃ y, ancestor m j c = Some y ∧ ∃ i, ancestor m i y = Some c.
Proof.
  intros Hc. induction j as [|j (y & Hy & i & Hi)].
  - exists c. split; [done|]. by exists 0%nat.
  - destruct i as [|i].
    + inversion Hi; subst y.
      destruct (ancestor_split m 1 n c c Hc) as (p & Hp & Hn).
      exists p. split; [|by exists n].
      eapply ancestor_snoc; [exact Hy|]. by apply ancestor_one.
    + destruct (ancestor_split m 1 i y c Hi) as (p & Hp & Hn).
      exists p. split; [|by exists i].
      eapply ancestor_snoc; [exact Hy|]. by apply ancestor_one.
Qed.

(** C2. [root] returns a root id itself. From an id that is not a root it
    follows the parent map: when the ids met on the way are not roots and
    the next one is, that one is returned; when the ids met are not roots
    and the last of them has no entry in the parent map, 0 is returned.
    In both cases a fuel larger than the number of hops suffices. *)
Theorem root_follows_parents (m : mysql) (id : Z) :
  (isRoot m id = true → ∀ fuel, root fuel m id = Some id)
  ∧ (∀ (k : nat) (r : Z),
       ancestor m (S k) id = Some r →
       isRoot m r = true →
       (∀ j x, (j ≤ k)%nat → ancestor m j id = Some x → isRoot m x = false) →
       ∀ fuel, (k < fuel)%nat → root fuel m id = Some r)
  ∧ (∀ (k : nat) (x : Z),
       ancestor m k id = Some x →
       pages m !! x = None →
       (∀ j y, (j ≤ k)%nat → ancestor m j id = Some y → isRoot m y = false) →
       ∀ fuel, (k < fuel)%nat → root fuel m id = Some 0).
Proof.
  split; [|split].
  - intros H fuel. by apply root_of_root.
  - intros k r Hr Hroot Hmid fuel Hfuel. unfold root.
    rewrite (Hmid 0%nat id); [|lia|done].
    apply (rootLoop_found m k); [done | done | | done].
    intros j x Hj. apply Hmid. lia.
  - intros k x Hx Hnone Hmid fuel Hfuel. unfold root.
    rewrite (Hmid 0%nat id); [|lia|done].
    apply (rootLoop_broken m k _ _ x); [done | done | | done].
    intros j y Hj. apply Hmid. lia.
Qed.

Lemma root_follows_parents_witness :
  root 5 site 1 = Some 1 ∧ root 5 site 3 = Some 1 ∧ root 5 orphan 3 = Some 0.
Proof.
  destruct (root_follows_parents site 1) as (H1 & _ & _).
  destruct (root_follows_parents site 3) as (_ & H2 & _).
  destruct (root_follows_parents orphan 3) as (_ & _ & H3).
  split; [apply H1; reflexivity|]. split.
  - apply (H2 1%nat 1); [reflexivity | reflexivity | | lia].
    intros j x Hj H. destruct j as [|[|j]]; [| |lia];
      vm_compute in H; injection H as <-; reflexivity.
  - apply (H3 1%nat 2); [reflexivity | reflexivity | | lia].
    intros j x Hj H. destruct j as [|[|j]]; [| |lia];
      vm_compute in H; injection H as <-; reflexivity.
Defined.

(** C4, as amended. When [root] returns [r] for an id and either [r] is a
    root, or no page has the id 0, or the page 0 is a root, then [root]
    returns [r] for [r]: resolving twice is resolving once. *)
Theorem root_idempotent (m : mysql) (x r : Z) (fuel : nat) :
  root fuel m x = Some r →
  isRoot m r = true ∨ pages m !! 0 = None ∨ isRoot m 0 = true →
  ∀ fuel', (0 < fuel')%nat → root fuel' m r = Some r.
Proof.
  intros Hx H0 fuel' Hfuel'.
  assert (isRoot m r = true ∨ r = 0) as [Hr| ->].
  { unfold root in Hx. destruct (isRoot m x) eqn:E.
    - inversion Hx; subst r. by left.
    - by eapply rootLoop_result. }
  - by apply root_of_root.
  - destruct H0 as [H0|[H0|H0]]; try by apply root_of_root.
    unfold root. destruct (isRoot m 0); [done|].
    destruct fuel' as [|fuel']; [lia|]. simpl. by rewrite H0.
Qed.

Lemma root_idempotent_witness :
  root 5 site 3 = Some 1 ∧ root 5 site 1 = Some 1
  ∧ root 5 orphan 3 = Some 0 ∧ root 5 orphan 0 = Some 0.
Proof.
  split; [reflexivity|]. split.
  - apply (root_idempotent site 3 1 5); [reflexivity | left; reflexivity | lia].
  - split; [reflexivity|].
    apply (root_idempotent orphan 3 0 5);
      [reflexivity | right; left; reflexivity | lia].
Defined.

(** C4 as stated fails where a page has the id 0: in the index loaded
    from the rows (0, 5) and (5, 0), the id 7 has no entry, so its root is
    the sentinel 0, and the root of the page 0 is 5. *)
Lemma root_of_sentinel_differs :
  root 1 zeroPage 7 = Some 0
  ∧ root 1 zeroPage 0 = Some 5
  ∧ (root 1 zeroPage 7 ≫= root 1 zeroPage) ≠ root 1 zeroPage 7.
Proof. vm_compute. repeat split; discriminate. Qed.

(** In that index [root] returns for every id. *)
Lemma zeroPage_root_total (x : Z) : ∃ r, root 1 zeroPage x = Some r.
Proof.
  destruct (decide (x = 0)) as [->|H0]; [by exists 5|].
  destruct (decide (x = 5)) as [->|H5]; [by exists 5|].
  exists 0. unfold root.
  assert (isRoot zeroPage x = false) as ->.
  { assert (roots zeroPage = [5]) as Hr by reflexivity.
    unfold isRoot. rewrite Hr. cbn [isRootIn].
    destruct (Z.eqb_spec 5 x); [congruence|done]. }
  assert (pages zeroPage = <[5 := 0]> (<[0 := 5]> ∅)) as Hp by reflexivity.
  cbn [rootLoop]. rewrite Hp, !lookup_insert_ne, lookup_empty by congruence.
  done.
Qed.

(** C6. When the ascent from an id, over ids that are not roots, arrives
    at an id that lies on a cycle of the parent map none of whose members
    is a root, [root] does not return: it runs out of every fuel. *)
Theorem root_diverges_on_cycle (m : mysql) (id c : Z) (n k : nat) :
  ancestor m (S n) c = Some c →
  (∀ j y, ancestor m j c = Some y → isRoot m y = false) →
  ancestor m k id = Some c →
  (∀ j y, (j < k)%nat → ancestor m j id = Some y → isRoot m y = false) →
  ∀ fuel, root fuel m id = None.
Proof.
  intros Hcycle Hnoroot Hk Hpath fuel.
  assert (∀ j, ∃ y, ancestor m j id = Some y ∧ isRoot m y = false) as Hall.
  { intros j. destruct (decide (j < k)%nat) as [Hlt|Hge].
    - replace k with (j + (k - j))%nat in Hk by lia.
      apply ancestor_split in Hk as (y & Hy & _).
      exists y. split; [done|]. by eapply Hpath.
    - destruct (cycle_unrolls m n c Hcycle (j - k)) as (y & Hy & _).
      exists y. split; [|by eapply Hnoroot].
      replace j with (k + (j - k))%nat by lia.
      by eapply ancestor_join. }
  unfold root. destruct (Hall 0%nat) as (y & Hy & Hr).
  inversion Hy; subst y. rewrite Hr. by apply rootLoop_unbounded.
Qed.

Lemma root_diverges_on_cycle_witness :
  ancestor looped 2 1 = Some 1
  ∧ ancestor looped 1 3 = Some 1
  ∧ ∀ fuel, root fuel looped 3 = None.
Proof.
  split; [vm_compute; reflexivity|]. split; [vm_compute; reflexivity|].
  apply (root_diverges_on_cycle looped 3 1 1 1);
    [vm_compute; reflexivity | intros; reflexivity
    | vm_compute; reflexivity | intros; reflexivity].
Defined.

(** ** The ad-hoc query *)

Lemma queryRows_bare (us : list Z) :
  ∀ (m : mysql) (acc : list Z),
    ∃ m', queryRows 0 (bareRow <$> us) m acc = Ok (acc ++ us, m')
      ∧ pages m' = pages m ∧ domains m' = domains m ∧ roots m' = roots m
      ∧ (∀ id, id ∈ us → assoc m' !! id = Some [])
      ∧ (∀ id, id ∉ us → assoc m' !! id = assoc m !! id).
Proof.
  induction us as [|u us IH]; intros m acc.
  - exists m. simpl. rewrite app_nil_r. repeat split; try done.
    by intros id ?%elem_of_nil.
  - destruct (IH (setAssoc u [] m) (acc ++ [u]))
      as (m' & Hq & Hp & Hd & Hr & Hin & Hout).
    exists m'.
    change (queryRows 0 (bareRow <$> u :: us) m acc)
      with (queryRows 0 (bareRow <$> us) (setAssoc u [] m) (acc ++ [u])).
    rewrite Hq, <- app_assoc. repeat split; try done.
    + intros id [->|Hid]%elem_of_cons; [|by apply Hin].
      destruct (decide (u ∈ us)) as [Hu|Hu]; [by apply Hin|].
      rewrite (Hout _ Hu). simpl. by rewrite lookup_insert_eq.
    + intros id Hid. apply not_elem_of_cons in Hid as [Hne Hid].
      rewrite (Hout _ Hid). simpl. by rewrite lookup_insert_ne.
Qed.

Lemma queryRows_frame (n : nat) (rows : list QueryRow) :
  ∀ (m m' : mysql) (acc uids : list Z),
    queryRows n rows m acc = Ok (uids, m') →
    pages m' = pages m ∧ domains m' = domains m ∧ roots m' = roots m.
Proof.
  induction rows as [|r rows IH]; intros m m' acc uids; simpl.
  - by intros [= _ <-].
  - destruct (scanRow n r) as [[uid data]|]; [|discriminate].
    intros H. by destruct (IH _ _ _ _ H) as (-> & -> & ->).
Qed.


(** C9, as amended. When the ad-hoc query yields rows of a single integer
    column, the call with no associated column returns their ids in
    order and leaves the parent map, the root list and the domain map as
    they were; in the associated data it binds every returned id to the
    empty sequence and leaves the entries of all other ids unchanged. *)
Theorem query_without_columns (db : DB) (m : mysql) (sql : string)
    (uids : list Z) :
  db_query db sql = Ok (bareRow <$> uids) →
  ∃ m', query db m sql 0 = Ok (uids, m')
    ∧ pages m' = pages m ∧ domains m' = domains m ∧ roots m' = roots m
    ∧ (∀ id, id ∈ uids → assoc m' !! id = Some [])
    ∧ (∀ id, id ∉ uids → assoc m' !! id = assoc m !! id).
Proof.
  intros Hq. unfold query. rewrite Hq. simpl.
  apply (queryRows_bare uids m []).
Qed.

Lemma query_without_columns_witness :
  ∃ m', query (queryDB [bareRow 8; bareRow 9]) shop "SELECT uid FROM t" 0
        = Ok ([8; 9], m')
    ∧ pages m' = pages shop ∧ domains m' = domains shop
    ∧ roots m' = roots shop
    ∧ (∀ id, id ∈ [8; 9] → assoc m' !! id = Some [])
    ∧ (∀ id, id ∉ [8; 9] → assoc m' !! id = assoc shop !! id).
Proof.
  apply (query_without_columns (queryDB [bareRow 8; bareRow 9]) shop
           "SELECT uid FROM t" [8; 9]).
  reflexivity.
Defined.

(** C9 as stated fails: the call with no associated column on a query
    that yields the id 5 adds an entry for 5 to the associated data. *)
Lemma query_without_columns_writes :
  ∃ m', query (queryDB [bareRow 5]) emptyMysql "SELECT uid FROM t" 0
        = Ok ([5], m')
    ∧ assoc emptyMysql !! 5 = None
    ∧ assoc m' !! 5 = Some []
    ∧ assoc m' ≠ assoc emptyMysql.
Proof.
  eexists. split; [reflexivity|]. split; [reflexivity|].
  split; [reflexivity|]. intros H.
  apply (f_equal (λ a : gmap Z (list string), a !! 5)) in H.
  vm_compute in H. discriminate.
Qed.

(** ** Selection *)

(** C7. With neither transform flag set, an explicit id and a query, the
    ids selected are the ids the query returned, alone: the explicit id,
    which is all that was selected before the query ran, is dropped. *)
Theorem query_ids_replace (fuel : nat) (order : rangeOrder) (db : DB)
    (m m' : mysql) (fl : Flags) (qids : list Z) :
  f_children fl = false →
  f_roots fl = false →
  0 < f_pid fl →
  f_query fl ≠ EmptyString →
  query db m (f_query fl) (f_nassoc fl) = Ok (qids, m') →
  selectPid fuel order m fl = Some [f_pid fl]
  ∧ selectUids fuel order db m fl = Some (Ok (qids, m')).
Proof.
  intros Hc Hr Hpid Hq Hquery.
  assert (selectPid fuel order m fl = Some [f_pid fl]) as Hsel.
  { unfold selectPid. rewrite Hc, Hr.
    destruct (Z.ltb_spec 0 (f_pid fl)); [done|lia]. }
  split; [done|]. unfold selectUids. rewrite Hsel. simpl.
  destruct (decide (f_query fl = EmptyString)); [done|].
  rewrite Hquery. unfold selectQids. by rewrite Hc, Hr.
Qed.

Lemma query_ids_replace_witness :
  ∃ m', selectPid 0 (fixedOrder site) site plainFlags = Some [7]
    ∧ selectUids 0 (fixedOrder site) (queryDB [bareRow 8; bareRow 9]) site
        plainFlags = Some (Ok ([8; 9], m')).
Proof.
  eexists.
  apply (query_ids_replace 0 (fixedOrder site)
           (queryDB [bareRow 8; bareRow 9]) site _ plainFlags [8; 9]);
    [reflexivity | reflexivity | reflexivity | discriminate | reflexivity].
Defined.

(** ** URL output *)

Lemma setField_length (i : nat) (v : string) (fields fields' : list string) :
  setField i v fields = Ok fields' → length fields' = length fields.
Proof.
  unfold setField. destruct (decide (i < length fields)%nat); [|discriminate].
  intros [= <-]. apply length_insert.
Qed.

Lemma fillFields_length (data : list string) :
  ∀ (i : nat) (fields fields' : list string),
    fillFields i data fields = Ok fields' → length fields' = length fields.
Proof.
  induction data as [|a data IH]; intros i fields fields'; simpl.
  - by intros [= <-].
  - destruct (setField (i + 1) _ fields) as [f1|] eqn:E; [|discriminate].
    intros H%IH. apply setField_length in E. congruence.
Qed.

Lemma printRow_length (n : Z) (m : mysql) (dom : string) (uid : Z)
    (fields fields' : list string) (line : string) :
  printRow n m dom uid fields = Ok (fields', line) →
  length fields' = length fields.
Proof.
  unfold printRow. destruct (0 <? n); [|by intros [= <- _]].
  destruct (setField 0 _ fields) as [f1|] eqn:E1; [|discriminate].
  destruct (fillFields 0 _ f1) as [f2|] eqn:E2; [|discriminate].
  intros [= <- _]. apply setField_length in E1.
  apply fillFields_length in E2. congruence.
Qed.

Lemma printRow_line (n : Z) (m : mysql) (dom : string) (uid : Z)
    (fields fields' : list string) (line : string) :
  0 < n →
  printRow n m dom uid fields = Ok (fields', line) →
  line = String.concat "," fields'.
Proof.
  intros Hn. unfold printRow. destruct (Z.ltb_spec 0 n); [|lia].
  destruct (setField 0 _ fields) as [f1|]; [|discriminate].
  destruct (fillFields 0 _ f1) as [f2|]; [|discriminate].
  by intros [= <- <-].
Qed.

(** An id without associated data leaves all fields but the first as the
    row printed before left them. *)
Lemma printRow_unbound (n : Z) (m : mysql) (dom : string) (uid : Z)
    (f : string) (fs : list string) :
  0 < n →
  assoc m !! uid = None →
  printRow n m dom uid (f :: fs)
  = Ok (quoted (urlOf dom uid) :: fs,
        String.concat "," (quoted (urlOf dom uid) :: fs)).
Proof.
  intros Hn Hnone. unfold printRow. destruct (Z.ltb_spec 0 n); [|lia].
  unfold setField. simpl length.
  destruct (decide (0 < S (length fs))%nat); [|lia].
  by rewrite Hnone.
Qed.

Lemma urlLoop_app (fuel : nat) (n : Z) (m : mysql) (pre post : list Z) :
  ∀ (fields out : list string),
    urlLoop fuel n m (pre ++ post) fields out =
    match urlLoop fuel n m pre fields out with
    | Some (Ok (fields', out')) => urlLoop fuel n m post fields' out'
    | other => other
    end.
Proof.
  induction pre as [|uid pre IH]; intros fields out; simpl; [done|].
  destruct (root fuel m uid) as [rid|]; [|done].
  destruct (decide (domain m rid = EmptyString)); [apply IH|].
  destruct (printRow n m (domain m rid) uid fields) as [[f1 line]|]; [|done].
  apply IH.
Qed.

Lemma urlLoop_buffer (fuel : nat) (n : Z) (m : mysql) (uids : list Z) :
  0 < n →
  ∀ (fields out fields' out' : list string),
    urlLoop fuel n m uids fields out = Some (Ok (fields', out')) →
    length fields' = length fields
    ∧ (∃ printed, out' = out ++ printed ∧ (printed = [] → fields' = fields))
    ∧ ((out ≠ [] → last out = Some (String.concat "," fields)) →
       out' ≠ [] → last out' = Some (String.concat "," fields')).
Proof.
  intros Hn. induction uids as [|uid uids IH];
    intros fields out fields' out'; simpl.
  - intros [= <- <-]. split; [done|]. split; [|done].
    exists []. by rewrite app_nil_r.
  - destruct (root fuel m uid) as [rid|]; [|discriminate].
    destruct (decide (domain m rid = EmptyString)); [apply IH|].
    destruct (printRow n m (domain m rid) uid fields)
      as [[f1 line]|] eqn:E; [|discriminate].
    intros (Hlen & (printed & -> & _) & Hlast)%IH.
    split; [|split].
    + apply printRow_length in E. congruence.
    + exists (line :: printed). rewrite <- app_assoc. split; [done|]. done.
    + intros _. apply Hlast. intros _. rewrite last_snoc.
      by rewrite (printRow_line _ _ _ _ _ _ _ Hn E).
Qed.

(** ** Descendants *)

Lemma keysOf_elem (m : mysql) (u : Z) : u ∈ keysOf m ↔ is_Some (pages m !! u).
Proof.
  unfold keysOf. rewrite list_elem_of_fmap. split.
  - intros ([u' p] & -> & H%elem_of_map_to_list). by exists p.
  - intros [p Hp]. exists (u, p). split; [done|]. by apply elem_of_map_to_list.
Qed.

Lemma keysOf_NoDup (m : mysql) : NoDup (keysOf m).
Proof. apply NoDup_fst_map_to_list. Qed.

Lemma keysOf_length (m : mysql) : length (keysOf m) = size (pages m).
Proof. unfold keysOf. by rewrite length_fmap, length_map_to_list. Qed.

Lemma fixedOrder_ranges (m : mysql) : rangesOver m (fixedOrder m).
Proof. by intros pid pids. Qed.

Lemma reaches_child (m : mysql) (u y : Z) :
  pages m !! u = Some y → reaches m u y.
Proof. intros H. exists 0%nat. by apply ancestor_one. Qed.

Lemma reaches_parent (m : mysql) (x u y : Z) :
  reaches m x u → pages m !! u = Some y → reaches m x y.
Proof. intros [k Hk] Hu. exists (S k). by eapply ancestor_snoc. Qed.

Lemma reaches_inv (m : mysql) (x y : Z) :
  reaches m x y → ∃ u, pages m !! u = Some y ∧ (x = u ∨ reaches m x u).
Proof.
  intros [k (u & Hu & Huy)%ancestor_last]. exists u. split; [done|].
  destruct k as [|k]; [left; by inversion Hu | right; by exists k].
Qed.

Lemma self_or_reaches (m : mysql) (x u : Z) :
  x = u ∨ reaches m x u ↔ ∃ i, ancestor m i x = Some u.
Proof.
  split.
  - intros [->|[k Hk]]; [by exists 0%nat | by exists (S k)].
  - intros [[|i] Hi]; [left; by inversion Hi | right; by exists i].
Qed.

Section AcyclicMap.

Context (m : mysql) (Hac : acyclic m).

(** The ids on a path of an acyclic map are distinct keys, so a path has
    no more hops than the map has entries. *)
Lemma path_nodes (k : nat) :
  ∀ x y, ancestor m k x = Some y →
    ∃ l : list Z, length l = k ∧ NoDup l
      ∧ ∀ z, z ∈ l → z ∈ keysOf m ∧ ∃ i, ancestor m i x = Some z.
Proof.
  induction k as [|k IH]; intros x y Hk.
  - exists []. split; [done|]. split; [constructor|].
    by intros z ?%elem_of_nil.
  - simpl in Hk. destruct (pages m !! x) as [p|] eqn:Hp; [|discriminate].
    destruct (IH p y Hk) as (l & Hlen & Hnd & Hl).
    exists (x :: l). split; [simpl; by rewrite Hlen|]. split.
    + apply NoDup_cons. split; [|done]. intros (_ & i & Hi)%Hl.
      apply (Hac x). exists i. simpl. by rewrite Hp.
    + intros z [->|Hz]%elem_of_cons.
      * split; [apply keysOf_elem; by exists p | by exists 0%nat].
      * destruct (Hl z Hz) as (Hkey & i & Hi). split; [done|].
        exists (S i). simpl. by rewrite Hp.
Qed.

Lemma path_bound (k : nat) (x y : Z) :
  ancestor m k x = Some y → (k ≤ size (pages m))%nat.
Proof.
  intros Hk. destruct (path_nodes k x y Hk) as (l & <- & Hnd & Hl).
  rewrite <- keysOf_length. apply submseteq_length, NoDup_submseteq; [done|].
  intros z Hz. by apply Hl.
Qed.

Lemma sibling_below (i j : nat) (x u u' y : Z) :
  pages m !! u = Some y → pages m !! u' = Some y →
  ancestor m i x = Some u → ancestor m j x = Some u' →
  (i < j)%nat → False.
Proof.
  intros Hu Hu' Hi Hj Hlt.
  pose proof (ancestor_later m i j x u u' ltac:(lia) Hi Hj) as H.
  destruct (j - i)%nat as [|d] eqn:E; [lia|].
  simpl in H. rewrite Hu in H.
  apply (Hac y). exists d. by eapply ancestor_snoc.
Qed.

(** Two children of one id have no descendant in common, and neither is
    below the other. *)
Lemma siblings_disjoint (x u u' y : Z) :
  pages m !! u = Some y → pages m !! u' = Some y → u ≠ u' →
  x = u ∨ reaches m x u → x = u' ∨ reaches m x u' → False.
Proof.
  intros Hu Hu' Hne [i Hi]%self_or_reaches [j Hj]%self_or_reaches.
  destruct (lt_eq_lt_dec i j) as [[Hlt|Heq]|Hgt].
  - by eapply (sibling_below i j x u u').
  - subst j. congruence.
  - by eapply (sibling_below j i x u' u).
Qed.

Lemma childrenLoop_spec (rec : Z → list Z → option (list Z)) (y : Z) :
  (∀ u acc, pages m !! u = Some y →
     ∃ d, rec u acc = Some (acc ++ d) ∧ descendantsOf m u d) →
  ∀ (ks acc : list Z),
    NoDup ks → (∀ u, u ∈ ks → u ∈ keysOf m) →
    ∃ d, childrenLoop rec m y ks acc = Some (acc ++ d)
      ∧ NoDup d
      ∧ ∀ x, x ∈ d ↔
          ∃ u, u ∈ ks ∧ pages m !! u = Some y ∧ (x = u ∨ reaches m x u).
Proof.
  intros Hrec. induction ks as [|u ks IH]; intros acc Hnd Hkeys.
  - exists []. simpl. rewrite app_nil_r. split; [done|].
    split; [constructor|]. intros x. split; [by intros ?%elem_of_nil|].
    by intros (u & ?%elem_of_nil & _).
  - apply NoDup_cons in Hnd as [Hu Hnd].
    assert (∀ v, v ∈ ks → v ∈ keysOf m) as Hkeys'
      by (intros v Hv; apply Hkeys; by right).
    destruct (proj1 (keysOf_elem m u) (Hkeys u ltac:(by left))) as [p Hp].
    simpl. rewrite Hp. simpl. destruct (Z.eqb_spec p y) as [->|Hpy].
    + destruct (Hrec u (acc ++ [u]) Hp) as (du & -> & Hdu_nd & Hdu).
      destruct (IH ((acc ++ [u]) ++ du) Hnd Hkeys') as (d' & -> & Hd'_nd & Hd').
      exists (u :: du ++ d'). split; [by rewrite <- !app_assoc|].
      split.
      * apply NoDup_cons. split.
        -- intros [Hin|Hin]%elem_of_app.
           ++ apply Hdu in Hin. by apply (Hac u).
           ++ apply Hd' in Hin as (u' & Hu' & Hpu' & Hor).
              eapply (siblings_disjoint u u u' y); eauto.
              intros ->. done.
        -- apply NoDup_app. split; [done|]. split; [|done].
           intros x Hx Hx'. apply Hdu in Hx.
           apply Hd' in Hx' as (u' & Hu' & Hpu' & Hor).
           eapply (siblings_disjoint x u u' y); eauto.
           intros ->. done.
      * intros x. rewrite elem_of_cons, elem_of_app, Hdu, Hd'. split.
        -- intros [->|[Hx|(u' & Hu' & Hpu' & Hor)]].
           ++ exists u. split; [by left|]. split; [done|]. by left.
           ++ exists u. split; [by left|]. split; [done|]. by right.
           ++ exists u'. split; [by right|]. done.
        -- intros (u' & [->|Hu']%elem_of_cons & Hpu' & Hor).
           ++ destruct Hor as [->|Hx]; [by left | right; by left].
           ++ right. right. by exists u'.
    + destruct (IH acc Hnd Hkeys') as (d' & -> & Hd'_nd & Hd').
      exists d'. split; [done|]. split; [done|].
      intros x. rewrite Hd'. split.
      * intros (u' & Hu' & Hrest). exists u'. split; [by right | done].
      * intros (u' & [->|Hu']%elem_of_cons & Hpu' & Hor).
        -- congruence.
        -- by exists u'.
Qed.

Lemma children_spec (order : rangeOrder) :
  rangesOver m order →
  ∀ (fuel : nat) (y : Z) (acc : list Z),
    (∀ x k, ancestor m k x = Some y → (k < fuel)%nat) →
    ∃ d, children fuel order m y acc = Some (acc ++ d) ∧ descendantsOf m y d.
Proof.
  intros Hord. induction fuel as [|fuel IH]; intros y acc Hdepth.
  - specialize (Hdepth y 0%nat eq_refl). lia.
  - simpl.
    destruct (childrenLoop_spec (children fuel order m) y) with
      (ks := order y acc) (acc := acc) as (d & Hd & Hnd & Hmem).
    + intros u acc' Hu. apply IH. intros x k Hk.
      assert (S k < S fuel)%nat; [|lia].
      apply (Hdepth x). by eapply ancestor_snoc.
    + rewrite (Hord y acc). apply keysOf_NoDup.
    + intros u. by rewrite (Hord y acc).
    + exists d. split; [done|]. split; [done|].
      intros x. rewrite Hmem. split.
      * intros (u & _ & Hu & [->|Hx]);
          [by apply reaches_child | by eapply reaches_parent].
      * intros (u & Hu & Hor)%reaches_inv. exists u. split; [|done].
        rewrite (Hord y acc). apply keysOf_elem. by exists y.
Qed.

Lemma children_total (order : rangeOrder) (fuel : nat) (y : Z)
    (acc : list Z) :
  rangesOver m order → (size (pages m) < fuel)%nat →
  ∃ d, children fuel order m y acc = Some (acc ++ d) ∧ descendantsOf m y d.
Proof.
  intros Hord Hfuel. apply children_spec; [done|].
  intros x k Hk. pose proof (path_bound k x y Hk). lia.
Qed.

End AcyclicMap.

(** A map whose parent ids are all smaller than the ids has no cycle. *)
Lemma descending_acyclic (m : mysql) :
  map_Forall (λ x p, p < x) (pages m) → acyclic m.
Proof.
  intros Hdesc.
  assert (∀ k x y, ancestor m (S k) x = Some y → y < x) as Hlt.
  { induction k as [|k IH]; intros x y H.
    - apply ancestor_one in H. by apply (Hdesc x y).
    - apply ancestor_last in H as (u & Hu & Huy).
      apply IH in Hu. pose proof (Hdesc u y Huy). simpl in *. lia. }
  intros x [k Hk]. apply Hlt in Hk. lia.
Qed.

Lemma site_acyclic : acyclic site.
Proof.
  apply descending_acyclic.
  apply (bool_decide_unpack _). vm_compute. reflexivity.
Qed.

(** C3. On an acyclic parent map and for every order of the [range]
    loops, [children] seeded with [y] and the empty list returns, with any
    fuel above the number of pages, a list that holds every id that
    reaches [y] by one or more hops, holds nothing else, holds no id
    twice, and does not hold [y]. *)
Theorem descendants_complete (m : mysql) (order : rangeOrder) (y : Z)
    (fuel : nat) :
  acyclic m →
  rangesOver m order →
  (size (pages m) < fuel)%nat →
  ∃ d, children fuel order m y [] = Some d
    ∧ (∀ x, reaches m x y → x ∈ d)
    ∧ (∀ x, x ∈ d → reaches m x y)
    ∧ NoDup d
    ∧ y ∉ d.
Proof.
  intros Hac Hord Hfuel.
  destruct (children_total m Hac order fuel y [] Hord Hfuel)
    as (d & Hd & Hnd & Hmem).
  exists d. split; [done|].
  split; [intros x; apply Hmem|]. split; [intros x; apply Hmem|].
  split; [done|]. intros Hy%Hmem. by apply (Hac y).
Qed.

Lemma descendants_complete_witness :
  ∃ d, children 5 (fixedOrder site) site 1 [] = Some d
    ∧ (∀ x, reaches site x 1 → x ∈ d)
    ∧ (∀ x, x ∈ d → reaches site x 1)
    ∧ NoDup d
    ∧ 1 ∉ d.
Proof.
  apply (descendants_complete site (fixedOrder site) 1 5);
    [exact site_acyclic | exact (fixedOrder_ranges site)
    | vm_compute; lia].
Defined.

(** ** Both transforms *)






Lemma rootLoop_ext (m m' : mysql) (fuel : nat) (x : Z) :
  pages m' = pages m → roots m' = roots m →
  rootLoop fuel m' x = rootLoop fuel m x.
Proof.
  intros Hp Hr. revert x. induction fuel as [|fuel IH]; intros x; simpl; [done|].
  rewrite Hp. unfold isRoot. rewrite Hr. destruct (pages m !! x) as [p|]; [|done].
  destruct (isRootIn (roots m) p); [done | apply IH].
Qed.

Lemma root_ext (m m' : mysql) (fuel : nat) (x : Z) :
  pages m' = pages m → roots m' = roots m → root fuel m' x = root fuel m x.
Proof.
  intros Hp Hr. unfold root, isRoot. rewrite Hr.
  destruct (isRootIn (roots m) x); [done | by apply rootLoop_ext].
Qed.





(** * Further properties *)

(** ** The loaders *)

Lemma loadPage_lookup (r : PageRow) (m : mysql) (x : Z) :
  pages (loadPage r m) !! x =
  if p_uid r =? x then Some (p_pid r) else pages m !! x.
Proof.
  unfold loadPage. destruct (Z.eqb_spec (p_uid r) x) as [<-|Hne];
    destruct (p_isroot r || (p_pid r =? 0)); simpl;
    by rewrite ?lookup_insert_eq, ?lookup_insert_ne.
Qed.

Lemma loadPage_roots (r : PageRow) (m : mysql) (x : Z) :
  x ∈ roots (loadPage r m) ↔
  x ∈ roots m ∨ (p_uid r = x ∧ (p_isroot r = true ∨ p_pid r = 0)).
Proof.
  unfold loadPage. destruct (p_isroot r) eqn:Hflag; simpl.
  - rewrite elem_of_app, list_elem_of_singleton. intuition.
  - destruct (Z.eqb_spec (p_pid r) 0) as [H0|H0]; simpl.
    + rewrite elem_of_app, list_elem_of_singleton. intuition.
    + intuition congruence.
Qed.

Lemma loadPageRows_lookup (rs : list PageRow) :
  ∀ m, ∃ m', loadPageRows (Some <$> rs) m = Ok m'
    ∧ (∀ x, pages m' !! x =
            match lastParent x rs with
            | Some p => Some p
            | None => pages m !! x
            end)
    ∧ (∀ x, x ∈ roots m' ↔
            x ∈ roots m
            ∨ ∃ r, r ∈ rs ∧ p_uid r = x ∧ (p_isroot r = true ∨ p_pid r = 0)).
Proof.
  induction rs as [|r rs IH]; intros m.
  - exists m. split; [done|]. split; [done|]. intros x. split; [by left|].
    intros [?|(r & ?%elem_of_nil & _)]; done.
  - destruct (IH (loadPage r m)) as (m' & Hm' & Hp & Hr).
    exists m'. split; [done|]. split.
    + intros x. rewrite Hp. simpl. destruct (lastParent x rs); [done|].
      rewrite loadPage_lookup. by destruct (p_uid r =? x).
    + intros x. rewrite Hr, loadPage_roots. split.
      * intros [[?|?]|(r' & ? & ?)].
        -- by left.
        -- right. exists r. split; [by left | done].
        -- right. exists r'. split; [by right | done].
      * intros [?|(r' & [->|?]%elem_of_cons & ?)].
        -- left. by left.
        -- left. by right.
        -- right. by exists r'.
Qed.

Lemma loadPageRows_decoded (rows : list (option PageRow)) :
  ∀ m m', loadPageRows rows m = Ok m' → ∃ rs, rows = Some <$> rs.
Proof.
  induction rows as [|[r|] rows IH]; intros m m' H.
  - by exists [].
  - destruct (IH _ _ H) as (rs & ->). by exists (r :: rs).
  - discriminate.
Qed.

Lemma loadDomainRows_decoded (rows : list (option DomainRow)) :
  ∀ m m', loadDomainRows rows m = Ok m' → ∃ rs, rows = Some <$> rs.
Proof.
  induction rows as [|[r|] rows IH]; intros m m' H.
  - by exists [].
  - destruct (IH _ _ H) as (rs & ->). by exists (r :: rs).
  - discriminate.
Qed.

(** X1. When the pages query executes and every row decodes, [loadPages]
    succeeds, and the parent of an id in the parent map is the parent id
    of the last row with that uid; an id no row names has no entry. *)
Theorem loadPages_last_row_wins (db : DB) (prs : list PageRow) (x : Z) :
  db_pages db = Ok (Some <$> prs) →
  ∃ m, loadPages db emptyMysql = Ok m ∧ pages m !! x = lastParent x prs.
Proof.
  intros Hdb. unfold loadPages. rewrite Hdb.
  destruct (loadPageRows_lookup prs emptyMysql) as (m & Hm & Hp & _).
  exists m. split; [done|]. rewrite Hp. simpl. rewrite lookup_empty.
  by destruct (lastParent x prs).
Qed.

Lemma loadPages_last_row_wins_witness :
  ∃ m, loadPages twiceDB emptyMysql = Ok m ∧ pages m !! 2 = lastParent 2 twiceRows.
Proof. apply (loadPages_last_row_wins twiceDB twiceRows 2). reflexivity. Defined.

(** X2. After [loadPages] an id is a root exactly when some row with that
    uid has the root flag set or the parent id 0, also when a later row
    for the same uid has neither; and every root has an entry in the
    parent map. *)
Theorem loadPages_roots (db : DB) (prs : list PageRow) :
  db_pages db = Ok (Some <$> prs) →
  ∃ m, loadPages db emptyMysql = Ok m
    ∧ (∀ x, isRoot m x = true ↔
            ∃ r, r ∈ prs ∧ p_uid r = x ∧ (p_isroot r = true ∨ p_pid r = 0))
    ∧ (∀ x, isRoot m x = true → is_Some (pages m !! x)).
Proof.
  intros Hdb. unfold loadPages. rewrite Hdb.
  destruct (loadPageRows_lookup prs emptyMysql) as (m & Hm & Hp & Hr).
  exists m. split; [done|].
  assert (∀ x, isRoot m x = true ↔
            ∃ r, r ∈ prs ∧ p_uid r = x ∧ (p_isroot r = true ∨ p_pid r = 0)) as Hiff.
  { intros x. rewrite isRoot_elem, Hr. simpl. split; [|by right].
    intros [?%elem_of_nil|?]; done. }
  split; [done|]. intros x (r & Hin & Hx & _)%Hiff. rewrite Hp.
  clear Hm Hp Hr Hiff Hdb. induction prs as [|r' prs IH]; [by apply elem_of_nil in Hin|].
  simpl. destruct (lastParent x prs) as [p|] eqn:E; [by eexists|].
  apply elem_of_cons in Hin as [->|Hin].
  - destruct (Z.eqb_spec (p_uid r') x); [by eexists | done].
  - destruct (IH Hin) as [p Hp]. simpl in Hp. by rewrite lookup_empty in Hp.
Qed.

Lemma loadPages_roots_witness :
  ∃ m, loadPages twiceDB emptyMysql = Ok m
    ∧ (∀ x, isRoot m x = true ↔
            ∃ r, r ∈ twiceRows ∧ p_uid r = x ∧ (p_isroot r = true ∨ p_pid r = 0))
    ∧ (∀ x, isRoot m x = true → is_Some (pages m !! x)).
Proof. apply (loadPages_roots twiceDB twiceRows). reflexivity. Defined.

(** X3. Each loader returns without error exactly when its query
    executes and every row that [rows.Next] hands to [rows.Scan] decodes.
    ([rows.Err] is never consulted: a result that breaks off is a result
    that ends, and is here the list of the rows delivered.) *)
Theorem loaders_succeed_iff (db : DB) (m : mysql) :
  ((∃ m', loadPages db m = Ok m') ↔ ∃ prs, db_pages db = Ok (Some <$> prs))
  ∧ ((∃ m', loadDomains db m = Ok m') ↔
     ∃ drs, db_domains db = Ok (Some <$> drs)).
Proof.
  unfold loadPages, loadDomains. split; split.
  - intros [m' H]. destruct (db_pages db) as [rows|]; [|discriminate].
    apply loadPageRows_decoded in H as [prs ->]. by exists prs.
  - intros [prs ->]. destruct (loadPageRows_total prs m) as (m' & H & _).
    by exists m'.
  - intros [m' H]. destruct (db_domains db) as [rows|]; [|discriminate].
    apply loadDomainRows_decoded in H as [drs ->]. by exists drs.
  - intros [drs ->]. destruct (loadDomainRows_lookup drs m 0) as (m' & H & _).
    by exists m'.
Qed.

Lemma earlier_loadDomain_lookup (row : DomainRow) (m : mysql) (r : Z) :
  domains (Earlier.loadDomain row m) !! r =
  if d_pid row =? r then
    match domains m !! r with
    | Some d => if d_forced row then Some (d_domain row) else Some d
    | None => Some (d_domain row)
    end
  else domains m !! r.
Proof.
  unfold Earlier.loadDomain. destruct (Z.eqb_spec (d_pid row) r) as [->|Hne].
  - destruct (domains m !! r) eqn:E; rewrite ?E.
    + destruct (d_forced row); simpl; [by rewrite lookup_insert_eq | done].
    + simpl. by rewrite lookup_insert_eq.
  - destruct (domains m !! d_pid row); [destruct (d_forced row)|]; simpl;
      by rewrite ?lookup_insert_ne.
Qed.

Lemma earlier_loadDomainRows_lookup (rs : list DomainRow) (r : Z) :
  ∀ m, ∃ m', Earlier.loadDomainRows (Some <$> rs) m = Ok m'
    ∧ domains m' !! r =
      match lastForced r rs with
      | Some d => Some d
      | None =>
          match domains m !! r with
          | Some d => Some d
          | None => firstBinding r rs
          end
      end.
Proof.
  induction rs as [|row rs IH]; intros m.
  - exists m. split; [done|]. simpl. by destruct (domains m !! r).
  - destruct (IH (Earlier.loadDomain row m)) as (m' & Hm' & Hl).
    exists m'. split; [done|]. rewrite Hl. simpl.
    destruct (lastForced r rs); [done|].
    rewrite earlier_loadDomain_lookup.
    destruct (d_pid row =? r); simpl; [|done].
    destruct (domains m !! r); by destruct (d_forced row).
Qed.

(** X4. In the first version of the loader, when the domain query
    executes and every row decodes, the domain bound to a root id is the
    one of the last forced row that names it and, when no row that names
    it is forced, the one of the first row that names it. *)
Theorem earlier_last_forced_wins (db : DB) (drs : list DomainRow) (r : Z) :
  db_domains db = Ok (Some <$> drs) →
  ∃ m, Earlier.loadDomains db emptyMysql = Ok m
    ∧ domains m !! r =
      match lastForced r drs with
      | Some d => Some d
      | None => firstBinding r drs
      end.
Proof.
  intros Hdb. unfold Earlier.loadDomains. rewrite Hdb.
  destruct (earlier_loadDomainRows_lookup drs r emptyMysql) as (m & Hm & Hl).
  exists m. split; [done|]. rewrite Hl. simpl. by rewrite lookup_empty.
Qed.

Lemma earlier_last_forced_wins_witness :
  ∃ m, Earlier.loadDomains forcedDB emptyMysql = Ok m
    ∧ domains m !! 7 =
      match lastForced 7 forcedRows with
      | Some d => Some d
      | None => firstBinding 7 forcedRows
      end.
Proof. apply (earlier_last_forced_wins forcedDB forcedRows 7). reflexivity. Defined.

(** ** Root lookup, continued *)

Lemma rootLoop_inv (m : mysql) (fuel : nat) :
  ∀ x r,
    rootLoop fuel m x = Some r →
    isRoot m x = false →
    ∃ k, (k < fuel)%nat
      ∧ (∀ j y, (j ≤ k)%nat → ancestor m j x = Some y → isRoot m y = false)
      ∧ ((ancestor m (S k) x = Some r ∧ isRoot m r = true)
         ∨ (∃ y, ancestor m k x = Some y ∧ pages m !! y = None ∧ r = 0)).
Proof.
  induction fuel as [|fuel IH]; intros x r H Hx; [discriminate|].
  simpl in H. destruct (pages m !! x) as [p|] eqn:Hp.
  - destruct (isRoot m p) eqn:Hroot.
    + injection H as <-. exists 0%nat. split; [lia|]. split.
      * intros j y Hj Hy. assert (j = 0)%nat as -> by lia. by inversion Hy; subst.
      * left. split; [by apply ancestor_one | done].
    + destruct (IH p r H Hroot) as (k & Hk & Hmid & Hend).
      exists (S k). split; [lia|]. split.
      * intros [|j] y Hj Hy; [by inversion Hy; subst|].
        simpl in Hy. rewrite Hp in Hy. apply (Hmid j); [lia | done].
      * destruct Hend as [[Ha Hr]|(y & Ha & Hn & ->)].
        -- left. split; [|done]. change (ancestor m (S (S k)) x) with
             (match pages m !! x with Some p => ancestor m (S k) p | None => None end).
           by rewrite Hp.
        -- right. exists y. split; [|done]. simpl. by rewrite Hp.
  - injection H as <-. exists 0%nat. split; [lia|]. split.
    + intros j y Hj Hy. assert (j = 0)%nat as -> by lia. by inversion Hy; subst.
    + right. by exists x.
Qed.

(** X5. Whatever [root] returns is accounted for: either the id is a root
    and is returned, or the ids on the ascent are not roots and the
    result is the first root met, or the ascent ends at an id without
    entry in the parent map and the result is 0. *)
Theorem root_result (m : mysql) (fuel : nat) (x r : Z) :
  root fuel m x = Some r →
  (isRoot m x = true ∧ r = x)
  ∨ ∃ k, (k < fuel)%nat
      ∧ (∀ j y, (j ≤ k)%nat → ancestor m j x = Some y → isRoot m y = false)
      ∧ ((ancestor m (S k) x = Some r ∧ isRoot m r = true)
         ∨ (∃ y, ancestor m k x = Some y ∧ pages m !! y = None ∧ r = 0)).
Proof.
  unfold root. destruct (isRoot m x) eqn:Hx.
  - intros [= <-]. by left.
  - intros H. right. by apply rootLoop_inv.
Qed.

Lemma root_result_witness :
  (isRoot site 3 = true ∧ 1 = 3)
  ∨ ∃ k, (k < 5)%nat
      ∧ (∀ j y, (j ≤ k)%nat → ancestor site j 3 = Some y → isRoot site y = false)
      ∧ ((ancestor site (S k) 3 = Some 1 ∧ isRoot site 1 = true)
         ∨ (∃ y, ancestor site k 3 = Some y ∧ pages site !! y = None ∧ 1 = 0)).
Proof. apply (root_result site 5 3 1). reflexivity. Defined.

Lemma rootLoop_out_of_fuel (m : mysql) (fuel : nat) :
  ∀ x, rootLoop fuel m x = None → ∃ y, ancestor m fuel x = Some y.
Proof.
  induction fuel as [|fuel IH]; intros x H; [by exists x|].
  simpl in H |- *. destruct (pages m !! x) as [p|]; [|discriminate].
  destruct (isRoot m p); [discriminate | by apply IH].
Qed.

(** X6. On an acyclic parent map [root] returns for every id as soon as
    the fuel exceeds the number of pages: the ascent makes no more hops
    than there are pages. *)
Theorem root_total_on_acyclic (m : mysql) (fuel : nat) (x : Z) :
  acyclic m →
  (size (pages m) < fuel)%nat →
  ∃ r, root fuel m x = Some r ∧ (isRoot m r = true ∨ r = 0).
Proof.
  intros Hac Hfuel. unfold root. destruct (isRoot m x) eqn:Hx.
  - exists x. split; [done | by left].
  - destruct (rootLoop fuel m x) as [r|] eqn:E.
    + exists r. split; [done | by eapply rootLoop_result].
    + apply rootLoop_out_of_fuel in E as [y Hy].
      pose proof (path_bound m Hac fuel x y Hy). lia.
Qed.

Lemma root_total_on_acyclic_witness :
  ∃ r, root 5 site 3 = Some r ∧ (isRoot site r = true ∨ r = 0).
Proof.
  apply (root_total_on_acyclic site 5 3); [exact site_acyclic | vm_compute; lia].
Defined.

Lemma rootLoop_no_sentinel (m : mysql) (fuel : nat) :
  topLevelAreRoots m → noOrphans m →
  ∀ x r,
    is_Some (pages m !! x) → isRoot m x = false →
    rootLoop fuel m x = Some r → isRoot m r = true.
Proof.
  intros Htop Horph. induction fuel as [|fuel IH]; intros x r [p Hp] Hx H;
    [discriminate|].
  simpl in H. rewrite Hp in H. destruct (isRoot m p) eqn:Hroot.
  - by injection H as <-.
  - apply (IH p); [|done|done]. apply (Horph x p Hp). intros ->.
    apply Htop, isRoot_elem in Hp. congruence.
Qed.

(** X7. In a loaded index in which every parent id other than 0 is itself
    a page, the result of [root] for a page is a root id, never the
    sentinel of a broken chain. *)
Theorem root_of_page_is_root (db : DB) (m : mysql) (fuel : nat) (x r : Z) :
  newMysql db = Ok m →
  noOrphans m →
  is_Some (pages m !! x) →
  root fuel m x = Some r →
  isRoot m r = true.
Proof.
  intros Hm Horph Hx. unfold root. destruct (isRoot m x) eqn:E.
  - by intros [= <-].
  - apply rootLoop_no_sentinel; [by eapply newMysql_topLevel | done..].
Qed.

Lemma noOrphans_check (m : mysql) :
  map_Forall (λ _ p, p = 0 ∨ is_Some (pages m !! p)) (pages m) → noOrphans m.
Proof. intros H x p Hp Hne. destruct (H x p Hp) as [->|?]; done. Qed.

Lemma root_of_page_is_root_witness :
  ∃ m, newMysql shopDB = Ok m ∧ root 5 m 3 = Some 1 ∧ isRoot m 1 = true.
Proof.
  eexists. split; [reflexivity|]. split; [vm_compute; reflexivity|].
  apply (root_of_page_is_root shopDB _ 5 3 1);
    [reflexivity
    | apply noOrphans_check, (bool_decide_unpack _); vm_compute; reflexivity
    | vm_compute; eauto
    | vm_compute; reflexivity].
Defined.

(** ** Descendants, continued *)

Lemma childrenLoop_sound (m : mysql) (rec : Z → list Z → option (list Z))
    (y : Z) :
  (∀ u acc r, pages m !! u = Some y → rec u acc = Some r →
     ∃ d, r = acc ++ d ∧ ∀ x, x ∈ d → reaches m x u) →
  ∀ ks acc r,
    (∀ u, u ∈ ks → u ∈ keysOf m) →
    childrenLoop rec m y ks acc = Some r →
    ∃ d, r = acc ++ d ∧ ∀ x, x ∈ d → reaches m x y.
Proof.
  intros Hrec. induction ks as [|u ks IH]; intros acc r Hkeys H; simpl in H.
  - injection H as <-. exists []. rewrite app_nil_r. split; [done|].
    by intros x ?%elem_of_nil.
  - assert (∀ v, v ∈ ks → v ∈ keysOf m) as Hkeys'
      by (intros v Hv; apply Hkeys; by right).
    destruct (proj1 (keysOf_elem m u) (Hkeys u ltac:(by left))) as [p Hp].
    rewrite Hp in H. simpl in H. destruct (Z.eqb_spec p y) as [Hpy|Hpy].
    + subst p. destruct (rec u (acc ++ [u])) as [r1|] eqn:E; [|discriminate].
      destruct (Hrec _ _ _ Hp E) as (du & -> & Hdu).
      destruct (IH _ _ Hkeys' H) as (d' & -> & Hd').
      exists (u :: du ++ d'). split; [by rewrite <- !app_assoc|].
      intros x [->|[Hx|Hx]%elem_of_app]%elem_of_cons.
      * by apply reaches_child.
      * eapply reaches_parent; [by apply Hdu | done].
      * by apply Hd'.
    + by apply IH.
Qed.

(** X8. Whenever [children] returns, its result is the list it was given
    followed by ids that all reach the seed by one or more hops; no
    assumption on cycles elsewhere in the map is needed. *)
Theorem children_extends (m : mysql) (order : rangeOrder) (fuel : nat)
    (pid : Z) (pids r : list Z) :
  rangesOver m order →
  children fuel order m pid pids = Some r →
  ∃ d, r = pids ++ d ∧ ∀ x, x ∈ d → reaches m x pid.
Proof.
  intros Hord. revert pid pids r.
  induction fuel as [|fuel IH]; intros pid pids r H; [discriminate|].
  simpl in H. eapply childrenLoop_sound; [| |exact H].
  - intros u acc r' _. apply IH.
  - intros u. by rewrite (Hord pid pids), keysOf_elem.
Qed.

Lemma children_extends_witness :
  ∃ d, [9; 9] ++ [3] = [9; 9] ++ d ∧ ∀ x, x ∈ d → reaches site x 2.
Proof.
  apply (children_extends site (fixedOrder site) 5 2 [9; 9] ([9; 9] ++ [3]));
    [exact (fixedOrder_ranges site) | vm_compute; reflexivity].
Defined.

Lemma childrenLoop_stuck (m : mysql) (rec : Z → list Z → option (list Z))
    (y u : Z) :
  pages m !! u = Some y →
  (∀ acc, rec u acc = None) →
  ∀ ks acc, u ∈ ks → childrenLoop rec m y ks acc = None.
Proof.
  intros Hu Hrec. induction ks as [|h ks IH]; intros acc Hin;
    [by apply elem_of_nil in Hin|].
  simpl. destruct (decide (h = u)) as [->|Hne].
  - rewrite Hu. simpl. by rewrite Z.eqb_refl, Hrec.
  - apply elem_of_cons in Hin as [->|Hin]; [done|].
    destruct (default 0 (pages m !! h) =? y); [|by apply IH].
    destruct (rec h (acc ++ [h])); [by apply IH | done].
Qed.

(** X9. When a cycle of the parent map lies at or below an id, [children]
    seeded with that id does not return, whatever the order of the loops:
    it runs out of every fuel. *)
Theorem children_diverges_on_cycle (m : mysql) (order : rangeOrder)
    (y c : Z) :
  rangesOver m order →
  reaches m c c →
  c = y ∨ reaches m c y →
  ∀ fuel acc, children fuel order m y acc = None.
Proof.
  intros Hord Hcycle Hbelow fuel. revert y Hbelow.
  induction fuel as [|fuel IH]; intros y Hbelow acc; [done|].
  assert (∃ u, pages m !! u = Some y ∧ (c = u ∨ reaches m c u))
    as (u & Hu & Hcu).
  { destruct Hbelow as [<-|Hcy]; by apply reaches_inv. }
  simpl. apply (childrenLoop_stuck m _ y u Hu).
  - intros acc'. by apply IH.
  - rewrite (Hord y acc). apply keysOf_elem. by exists y.
Qed.

Lemma children_diverges_on_cycle_witness :
  reaches looped 1 1
  ∧ ∀ fuel acc, children fuel (fixedOrder looped) looped 2 acc = None.
Proof.
  assert (reaches looped 1 1) as H by (exists 1%nat; vm_compute; reflexivity).
  split; [exact H|].
  apply (children_diverges_on_cycle looped (fixedOrder looped) 2 1);
    [exact (fixedOrder_ranges looped) | exact H
    | right; exists 0%nat; vm_compute; reflexivity].
Defined.

(** ** The ad-hoc query, continued *)

Lemma scanRow_Some (n : nat) (r : QueryRow) (uid : Z) (data : list string) :
  scanRow n r = Some (uid, data) ↔
  q_uid r = Some uid ∧ q_cols r = data ∧ length data = n.
Proof.
  unfold scanRow. destruct (q_uid r) as [u|]; [|intuition congruence].
  destruct (decide (length (q_cols r) = n)) as [Hlen|Hlen]; split.
  - intros [= <- <-]. done.
  - intros ([= <-] & <- & _). done.
  - discriminate.
  - intros (_ & <- & ?). done.
Qed.

Lemma queryRows_inv (n : nat) (rows : list QueryRow) :
  ∀ (m m' : mysql) (acc uids : list Z),
    queryRows n rows m acc = Ok (uids, m') →
    ∃ us, uids = acc ++ us
      ∧ q_uid <$> rows = Some <$> us
      ∧ Forall (λ r, length (q_cols r) = n) rows
      ∧ ∀ id, assoc m' !! id =
              match lastCols id rows with
              | Some d => Some d
              | None => assoc m !! id
              end.
Proof.
  induction rows as [|r rows IH]; intros m m' acc uids H; simpl in H.
  - injection H as <- <-. exists []. rewrite app_nil_r. by repeat split.
  - destruct (scanRow n r) as [[uid data]|] eqn:E; [|discriminate].
    apply scanRow_Some in E as (Hu & Hc & Hlen).
    destruct (IH _ _ _ _ H) as (us & -> & Hus & Hall & Hassoc).
    exists (uid :: us). rewrite <- app_assoc. split; [done|].
    split; [by rewrite !fmap_cons, Hu, Hus|].
    split; [constructor; [congruence | done]|].
    intros id. rewrite Hassoc. simpl. destruct (lastCols id rows); [done|].
    rewrite Hu, Hc. destruct (decide (Some uid = Some id)) as [[= ->]|Hne].
    + by rewrite lookup_insert_eq.
    + rewrite lookup_insert_ne; [done | congruence].
Qed.

Lemma queryRows_total (n : nat) (rows : list QueryRow) :
  Forall (λ r, is_Some (q_uid r) ∧ length (q_cols r) = n) rows →
  ∀ m acc, ∃ uids m', queryRows n rows m acc = Ok (uids, m').
Proof.
  induction 1 as [|r rows [[uid Hu] Hlen] _ IH]; intros m acc; simpl.
  - by eexists _, _.
  - assert (scanRow n r = Some (uid, q_cols r)) as ->
      by (by apply scanRow_Some).
    apply IH.
Qed.

(** X10. A successful query returns the first column of its rows, in
    order and with repetitions, and records for every id the columns of
    the last row that carries it; ids the result does not carry keep the
    associated data they had. *)
Theorem query_records_last_row (db : DB) (m m' : mysql) (sql : string)
    (n : Z) (uids : list Z) :
  query db m sql n = Ok (uids, m') →
  ∃ rows, db_query db sql = Ok rows
    ∧ q_uid <$> rows = Some <$> uids
    ∧ ∀ id, assoc m' !! id =
            match lastCols id rows with
            | Some d => Some d
            | None => assoc m !! id
            end.
Proof.
  unfold query. destruct (db_query db sql) as [rows|]; [|discriminate].
  destruct (n <? 0); [discriminate|].
  intros (us & -> & Hus & _ & Hassoc)%queryRows_inv. by exists rows.
Qed.

Lemma query_records_last_row_witness :
  ∃ m', query (queryDB overwriteRows) shop "SELECT uid, a, b FROM t" 2
        = Ok ([5; 6; 5], m')
    ∧ assoc m' !! 5 = Some ["z"; "w"]%string
    ∧ ∃ rows, db_query (queryDB overwriteRows) "SELECT uid, a, b FROM t" = Ok rows
        ∧ q_uid <$> rows = Some <$> [5; 6; 5]
        ∧ ∀ id, assoc m' !! id =
                match lastCols id rows with
                | Some d => Some d
                | None => assoc shop !! id
                end.
Proof.
  eexists. split; [vm_compute; reflexivity|].
  split; [vm_compute; reflexivity|].
  apply (query_records_last_row (queryDB overwriteRows) shop _
           "SELECT uid, a, b FROM t" 2 [5; 6; 5]).
  vm_compute. reflexivity.
Defined.




Lemma query_width (db : DB) (m m' : mysql) (sql : string) (n : Z)
    (uids : list Z) :
  query db m sql n = Ok (uids, m') →
  assocWidth (Z.to_nat n) m →
  assocWidth (Z.to_nat n) m'.
Proof.
  unfold query. destruct (db_query db sql) as [rows|]; [|discriminate].
  destruct (n <? 0); [discriminate|].
  intros (us & _ & _ & Hall & Hassoc)%queryRows_inv Hm id data.
  rewrite Hassoc. destruct (lastCols id rows) as [d|] eqn:E; [|apply Hm].
  intros [= ->]. clear Hassoc. induction Hall as [|r rows Hr _ IH]; [done|].
  simpl in E. destruct (lastCols id rows); [by apply IH|].
  destruct (decide (q_uid r = Some id)); [|done]. by injection E as <-.
Qed.

Lemma assocWidth_empty (n : nat) (m : mysql) : assoc m = ∅ → assocWidth n m.
Proof. intros H id data. by rewrite H, lookup_empty. Qed.

(** X12. After a successful query every entry it recorded has exactly the
    number of columns asked for, so an index whose associated data had
    that width keeps it. *)
Theorem query_keeps_width (db : DB) (m m' : mysql) (sql : string) (n : Z)
    (uids : list Z) :
  query db m sql n = Ok (uids, m') →
  assocWidth (Z.to_nat n) m →
  assocWidth (Z.to_nat n) m'.
Proof. apply query_width. Qed.

Lemma query_keeps_width_witness :
  ∃ m', query (queryDB overwriteRows) emptyMysql "SELECT uid, a, b FROM t" 2
        = Ok ([5; 6; 5], m')
    ∧ assocWidth 2 m'.
Proof.
  eexists. split; [vm_compute; reflexivity|].
  apply (query_keeps_width (queryDB overwriteRows) emptyMysql _
           "SELECT uid, a, b FROM t" 2 [5; 6; 5]);
    [vm_compute; reflexivity | by apply assocWidth_empty].
Defined.

(** ** URL output, continued *)

Lemma printRow_plain (n : Z) (m : mysql) (dom : string) (uid : Z)
    (fields : list string) :
  n ≤ 0 → printRow n m dom uid fields = Ok (fields, urlOf dom uid).
Proof. intros Hn. unfold printRow. by destruct (Z.ltb_spec 0 n); [lia|]. Qed.

Lemma fillFields_fill (data : list string) :
  ∀ (i : nat) (pre old post : list string),
    length pre = S i → length old = length data →
    fillFields i data (pre ++ old ++ post)
    = Ok (pre ++ ((λ a, quoted (escapeQuotes a)) <$> data) ++ post).
Proof.
  induction data as [|a data IH]; intros i pre old post Hpre Hold.
  - by destruct old.
  - destruct old as [|o old]; [discriminate|]. simpl in Hold.
    cbn [fillFields]. unfold setField.
    destruct (decide (i + 1 < length (pre ++ (o :: old) ++ post))%nat) as [_|Hge].
    2: { rewrite !length_app in Hge. simpl in Hge. lia. }
    replace (i + 1)%nat with (length pre + 0)%nat by lia.
    rewrite insert_app_r. simpl.
    rewrite (cons_middle _ pre), app_assoc.
    rewrite (IH (S i) (pre ++ [_]) old post).
    + by rewrite <- app_assoc.
    + rewrite length_app. simpl. lia.
    + lia.
Qed.

Lemma printRow_full (n : Z) (m : mysql) (dom : string) (uid : Z)
    (fields data : list string) :
  0 < n →
  length fields = S (Z.to_nat n) →
  length data = Z.to_nat n →
  assoc m !! uid = Some data →
  printRow n m dom uid fields
  = Ok (rowOf dom uid data, String.concat "," (rowOf dom uid data)).
Proof.
  intros Hn Hfields Hdata Hassoc. unfold printRow.
  destruct (Z.ltb_spec 0 n); [|lia].
  destruct fields as [|f old]; [discriminate|]. unfold setField. simpl length.
  destruct (decide (0 < S (length old))%nat); [|lia].
  rewrite Hassoc. cbn [default insert list_insert]. unfold id.
  pose proof (fillFields_fill data 0 [quoted (urlOf dom uid)] old []) as Hfill.
  rewrite !app_nil_r in Hfill. simpl in Hfill, Hfields.
  rewrite Hfill; [done | done | lia].
Qed.

(** X13. An id with associated data of the width of the buffer is printed
    with its own URL and its own values, quoted and escaped, whatever the
    buffer held before. *)
Theorem printRow_own_values (n : Z) (m : mysql) (dom : string) (uid : Z)
    (fields data : list string) :
  0 < n →
  length fields = S (Z.to_nat n) →
  length data = Z.to_nat n →
  assoc m !! uid = Some data →
  printRow n m dom uid fields
  = Ok (rowOf dom uid data, String.concat "," (rowOf dom uid data)).
Proof. apply printRow_full. Qed.

Lemma printRow_own_values_witness :
  printRow 2 shop "example.com" 2 ["stale"; "stale"; "stale"]%string
  = Ok (rowOf "example.com" 2 ["x"; "y"]%string,
        String.concat "," (rowOf "example.com" 2 ["x"; "y"]%string)).
Proof.
  apply (printRow_own_values 2 shop "example.com" 2);
    [lia | reflexivity | reflexivity | vm_compute; reflexivity].
Defined.

Lemma printRow_ok (n : Z) (m : mysql) (dom : string) (uid : Z)
    (fields : list string) :
  n ≤ 0 ∨ (length fields = S (Z.to_nat n) ∧ assocWidth (Z.to_nat n) m) →
  ∃ fields' line, printRow n m dom uid fields = Ok (fields', line).
Proof.
  destruct (Z.le_gt_cases n 0) as [Hle|Hgt].
  - intros _. rewrite printRow_plain by done. by eexists _, _.
  - intros [?|[Hlen Hw]]; [lia|].
    destruct (assoc m !! uid) as [data|] eqn:E.
    + rewrite (printRow_full n m dom uid fields data); [|lia|done| |done].
      * by eexists _, _.
      * by apply (Hw uid).
    + destruct fields as [|f fs]; [discriminate|].
      rewrite printRow_unbound by (done || lia). by eexists _, _.
Qed.

Lemma urlLoop_never_fails (fuel : nat) (n : Z) (m : mysql) (e : error)
    (uids : list Z) :
  ∀ fields out,
    n ≤ 0 ∨ (length fields = S (Z.to_nat n) ∧ assocWidth (Z.to_nat n) m) →
    urlLoop fuel n m uids fields out ≠ Some (Err e).
Proof.
  induction uids as [|uid uids IH]; intros fields out Hok; simpl; [done|].
  destruct (root fuel m uid) as [rid|]; [|done].
  destruct (decide (domain m rid = EmptyString)); [by apply IH|].
  destruct (printRow_ok n m (domain m rid) uid fields Hok) as (f' & line & E).
  rewrite E. apply IH. destruct Hok as [?|[Hlen Hw]]; [by left|].
  right. split; [|done]. apply printRow_length in E. congruence.
Qed.

Lemma urlLoop_stale (fuel : nat) (n : Z) (m : mysql) :
  0 < n →
  assocWidth (Z.to_nat n) m →
  ∀ uids,
    Forall (λ u, is_Some (root fuel m u)) uids →
    ∀ (c0 : string) (tl out : list string),
      length tl = Z.to_nat n →
      ∃ c0' out',
        urlLoop fuel n m uids (c0 :: tl) out
        = Some (Ok (c0' :: match last (printedData fuel m uids) with
                           | Some data => (λ a, quoted (escapeQuotes a)) <$> data
                           | None => tl
                           end, out')).
Proof.
  intros Hn Hw. induction 1 as [|uid uids [rid Hr] _ IH]; intros c0 tl out Htl.
  - by exists c0, out.
  - cbn [urlLoop]. unfold printedData. cbn [omap list_omap].
    fold (printedData fuel m uids). unfold printed. rewrite Hr.
    destruct (decide (domain m rid = EmptyString)) as [Hd|Hd].
    + rewrite (proj2 (String.eqb_eq _ _) Hd). simpl. by apply IH.
    + rewrite (proj2 (String.eqb_neq _ _) Hd). cbn [negb].
      destruct (assoc m !! uid) as [data|] eqn:E.
      * rewrite (printRow_full n m _ uid (c0 :: tl) data);
          [|done|simpl; lia|by apply (Hw uid)|done].
        unfold rowOf.
        destruct (IH (quoted (urlOf (domain m rid) uid))
                    ((λ a, quoted (escapeQuotes a)) <$> data) (out ++ [String.concat ","
                       (quoted (urlOf (domain m rid) uid)
                          :: ((λ a, quoted (escapeQuotes a)) <$> data))]))
          as (c0' & out' & H).
        { rewrite length_fmap. by apply (Hw uid). }
        exists c0', out'. rewrite H, last_cons.
        by destruct (last (printedData fuel m uids)).
      * rewrite (printRow_unbound n m _ uid c0 tl Hn E). by apply IH.
Qed.

(** X14. Once the buffer of [n + 1] fields is made and every entry of the
    associated data has [n] values, no write of the URL loop is out of
    range: the loop ends in no error, whatever the ids. *)
Theorem urlLoop_writes_in_range (fuel : nat) (n : Z) (m : mysql) (e : error)
    (uids : list Z) (fields out : list string) :
  0 < n →
  length fields = S (Z.to_nat n) →
  assocWidth (Z.to_nat n) m →
  urlLoop fuel n m uids fields out ≠ Some (Err e).
Proof. intros Hn Hlen Hw. apply urlLoop_never_fails. by right. Qed.

Lemma urlLoop_writes_in_range_witness :
  urlLoop 5 2 shop [2; 3; 99] (replicate 3 EmptyString) [] ≠ Some (Err Panic).
Proof.
  apply urlLoop_writes_in_range; [lia | reflexivity |].
  apply (query_width shopDB shopIndex shop "SELECT uid, a, b FROM t" 2 [2]);
    [vm_compute; reflexivity | by apply assocWidth_empty].
Defined.

Lemma urlLoop_rows (fuel : nat) (n : Z) (m : mysql) (uids : list Z) :
  Forall (λ u, is_Some (root fuel m u)) uids →
  ∀ fields out,
    n ≤ 0 ∨ (length fields = S (Z.to_nat n) ∧ assocWidth (Z.to_nat n) m) →
    ∃ fields' out',
      urlLoop fuel n m uids fields out = Some (Ok (fields', out'))
      ∧ length out'
        = (length out + length (List.filter (printed fuel m) uids))%nat.
Proof.
  induction 1 as [|uid uids [rid Hr] _ IH]; intros fields out Hok; simpl.
  - exists fields, out. split; [done | lia].
  - unfold printed at 1. rewrite Hr.
    destruct (decide (domain m rid = EmptyString)) as [Hd|Hd].
    + rewrite (proj2 (String.eqb_eq _ _) Hd). simpl. by apply IH.
    + rewrite (proj2 (String.eqb_neq _ _) Hd). simpl.
      destruct (printRow_ok n m (domain m rid) uid fields Hok)
        as (f1 & line & E).
      rewrite E. destruct (IH f1 (out ++ [line])) as (f' & out' & H & Hlen).
      { destruct Hok as [?|[Hlen Hw]]; [by left|]. right. split; [|done].
        apply printRow_length in E. congruence. }
      exists f', out'. split; [done|]. rewrite Hlen, length_app. simpl. lia.
Qed.

(** X15. When [root] returns for every id and, if associated columns are
    asked for, the buffer has a field more than there are columns and
    every entry of the associated data has as many values as there are
    columns, the URL loop runs to its end and calls [Printf] once for
    every id whose root has a domain, and not at all for the others. *)
Theorem urlLoop_row_count (fuel : nat) (n : Z) (m : mysql) (uids : list Z)
    (fields out : list string) :
  Forall (λ u, is_Some (root fuel m u)) uids →
  n ≤ 0 ∨ (length fields = S (Z.to_nat n) ∧ assocWidth (Z.to_nat n) m) →
  ∃ fields' out',
    urlLoop fuel n m uids fields out = Some (Ok (fields', out'))
    ∧ length out'
      = (length out + length (List.filter (printed fuel m) uids))%nat.
Proof. intros Hroots Hok. by apply urlLoop_rows. Qed.

Lemma urlLoop_row_count_witness :
  ∃ fields' out',
    urlLoop 5 2 shop [3; 99; 2] (replicate 3 EmptyString) []
    = Some (Ok (fields', out'))
    ∧ length out' = (0 + length (List.filter (printed 5 shop) [3; 99; 2]%Z))%nat.
Proof.
  apply (urlLoop_row_count 5 2 shop [3; 99; 2] (replicate 3 EmptyString) []).
  - repeat constructor; vm_compute; eauto.
  - right. split; [reflexivity|].
    apply (query_width shopDB shopIndex shop "SELECT uid, a, b FROM t" 2 [2]);
      [vm_compute; reflexivity | by apply assocWidth_empty].
Defined.

Lemma urlLoop_plain (fuel : nat) (n : Z) (m : mysql) (uids : list Z)
    (fields out : list string) :
  n ≤ 0 →
  Forall (λ u, is_Some (root fuel m u)) uids →
  urlLoop fuel n m uids fields out
  = Some (Ok (fields, out ++ omap (urlLine fuel m) uids)).
Proof.
  intros Hn Hall. revert out.
  induction Hall as [|uid uids [rid Hr] _ IH]; intros out; simpl.
  - by rewrite app_nil_r.
  - unfold urlLine at 1. rewrite Hr.
    destruct (decide (domain m rid = EmptyString)); [apply IH|].
    rewrite printRow_plain by done. rewrite IH. by rewrite <- app_assoc.
Qed.

Lemma wrap64_id (z : Z) : minInt ≤ z ≤ maxInt → wrap64 z = z.
Proof.
  unfold wrap64, minInt, maxInt. intros Hz.
  rewrite Z.mod_small by lia. lia.
Qed.

(** X16. In URL mode with the number of associated columns 0 (the
    default) or -1, when [root] returns for every id, the output is, in
    the order of the ids, the URL made of the domain of the root of the
    id and of the id itself, for each id whose root has a domain. *)
Theorem output_plain_urls (fuel : nat) (m : mysql) (fl : Flags)
    (uids : list Z) :
  f_csv fl = false →
  -1 ≤ f_nassoc fl ≤ 0 →
  Forall (λ u, is_Some (root fuel m u)) uids →
  output fuel m fl uids = Some (Ok (omap (urlLine fuel m) uids)).
Proof.
  intros Hcsv Hn Hroots. unfold output, makeStrings. rewrite Hcsv.
  rewrite wrap64_id by (unfold minInt, maxInt; lia).
  destruct (Z.ltb_spec (f_nassoc fl + 1) 0); [lia|].
  by rewrite urlLoop_plain by (done || lia).
Qed.

Lemma output_plain_urls_witness :
  output 5 shop
    {| f_pid := 0; f_dsn := "dsn"; f_query := "SELECT uid FROM t";
       f_nassoc := 0; f_children := false; f_roots := false; f_csv := false |}
    [3; 99; 2]
  = Some (Ok (omap (urlLine 5 shop) [3; 99; 2])).
Proof.
  apply output_plain_urls; [reflexivity | simpl; lia |].
  repeat constructor; vm_compute; eauto.
Defined.

(** C10. In URL mode with associated columns the field buffer is made
    once and shared by all rows. After the ids [pre], on which [root]
    returns, an id with a bound domain and no associated data is printed
    with its own URL followed by the values, quoted and escaped, of the
    last id of [pre] that was printed and has associated data, and by
    empty fields when there is none; these are also the fields of the
    line printed last. The entries of the associated data have as many
    values as there are columns, as [query] records them. *)
Theorem stale_fields_are_printed (fuel : nat) (n : Z) (m : mysql)
    (pre : list Z) (uid rid : Z) (blank : list string) :
  0 < n →
  n ≤ maxInt →
  makeStrings (wrap64 (n + 1)) = Ok blank →
  assocWidth (Z.to_nat n) m →
  Forall (λ u, is_Some (root fuel m u)) pre →
  root fuel m uid = Some rid →
  domain m rid ≠ EmptyString →
  assoc m !! uid = None →
  ∃ fields out,
    urlLoop fuel n m pre blank [] = Some (Ok (fields, out))
    ∧ drop 1 fields = staleFields fuel (Z.to_nat n) m pre
    ∧ (out ≠ [] → last out = Some (String.concat "," fields))
    ∧ urlLoop fuel n m (pre ++ [uid]) blank []
      = Some (Ok (quoted (urlOf (domain m rid) uid)
                    :: staleFields fuel (Z.to_nat n) m pre,
                  out ++ [String.concat ","
                            (quoted (urlOf (domain m rid) uid)
                               :: staleFields fuel (Z.to_nat n) m pre)])).
Proof.
  intros Hn Hmax Hblank Hw Hroots Hroot Hdom Hnone.
  assert (blank = EmptyString :: replicate (Z.to_nat n) EmptyString) as ->.
  { destruct (decide (n = maxInt)) as [->|Hne];
      [vm_compute in Hblank; discriminate|].
    rewrite wrap64_id in Hblank by (unfold minInt, maxInt in *; lia).
    unfold makeStrings in Hblank.
    destruct (Z.ltb_spec (n + 1) 0); [lia|]. injection Hblank as <-.
    by replace (Z.to_nat (n + 1)) with (S (Z.to_nat n)) by lia. }
  destruct (urlLoop_stale fuel n m Hn Hw pre Hroots EmptyString
              (replicate (Z.to_nat n) EmptyString) [])
    as (c0 & out & Hpre); [apply length_replicate|].
  fold (staleFields fuel (Z.to_nat n) m pre) in Hpre.
  exists (c0 :: staleFields fuel (Z.to_nat n) m pre), out.
  split; [done|]. split; [done|]. split.
  - destruct (urlLoop_buffer fuel n m pre Hn _ _ _ _ Hpre) as (_ & _ & Hlast).
    by apply Hlast.
  - rewrite urlLoop_app, Hpre. simpl. rewrite Hroot.
    destruct (decide (domain m rid = EmptyString)); [done|].
    by rewrite (printRow_unbound n m _ uid c0 _ Hn Hnone).
Qed.

Lemma stale_fields_are_printed_witness :
  ∃ fields out,
    urlLoop 5 2 shop [2] (replicate 3 EmptyString) [] = Some (Ok (fields, out))
    ∧ drop 1 fields = [quoted "x"; quoted "y"]
    ∧ (out ≠ [] → last out = Some (String.concat "," fields))
    ∧ urlLoop 5 2 shop [2; 3] (replicate 3 EmptyString) []
      = Some (Ok ([quoted (urlOf "example.com" 3); quoted "x"; quoted "y"],
                  out ++ [String.concat ","
                            [quoted (urlOf "example.com" 3);
                             quoted "x"; quoted "y"]])).
Proof.
  apply (stale_fields_are_printed 5 2 shop [2] 3 1 (replicate 3 EmptyString));
    [lia | unfold maxInt; lia | vm_compute; reflexivity
    | apply (query_width shopDB shopIndex shop "SELECT uid, a, b FROM t" 2 [2]);
        [vm_compute; reflexivity | by apply assocWidth_empty]
    | repeat constructor; vm_compute; eauto
    | vm_compute; reflexivity | vm_compute; discriminate
    | vm_compute; reflexivity].
Defined.

(** ** Formatting *)

Lemma dquote_backslash : dquote ≠ backslash.
Proof. discriminate. Qed.

Lemma escapeQuotes_head (s t : string) :
  escapeQuotes s ≠ String dquote t.
Proof.
  destruct s as [|c s]; simpl; [discriminate|].
  destruct (Ascii.eqb_spec c dquote) as [->|Hne]; [discriminate|].
  intros [= -> _]. done.
Qed.

(** X17. [escapeQuotes], the replacement of every double quote by a
    backslash and a double quote, maps different values to different
    fields. *)
Theorem escapeQuotes_inj (s t : string) :
  s ≠ t → escapeQuotes s ≠ escapeQuotes t.
Proof.
  intros Hne Heq. apply Hne. clear Hne. revert t Heq.
  induction s as [|c s IH]; intros [|d t]; simpl.
  - done.
  - destruct (Ascii.eqb d dquote); discriminate.
  - destruct (Ascii.eqb c dquote); discriminate.
  - destruct (Ascii.eqb_spec c dquote) as [->|Hc];
      destruct (Ascii.eqb_spec d dquote) as [->|Hd].
    + intros [= H]. by rewrite (IH t H).
    + intros [= <- H]. symmetry in H. by apply escapeQuotes_head in H.
    + intros [= -> H]. by apply escapeQuotes_head in H.
    + intros [= -> H]. by rewrite (IH t H).
Qed.

Lemma escapeQuotes_inj_witness :
  escapeQuotes (String dquote "a") ≠ escapeQuotes (String backslash (String dquote "a")).
Proof. apply escapeQuotes_inj. discriminate. Defined.

Lemma pretty_N_go_comma (x : N) :
  ∀ s, hasChar comma (pretty_N_go x s) = hasChar comma s.
Proof.
  induction (N.lt_wf_0 x) as [x _ IH]; intros s.
  assert (x = 0 ∨ 0 < x)%N as [->|Hx] by lia; [by rewrite pretty_N_go_0|].
  rewrite pretty_N_go_step by done. rewrite IH by (by apply N.div_lt).
  unfold pretty_N_char. by repeat case_match.
Qed.

Lemma pretty_N_go_nonempty (x : N) :
  ∀ s, s ≠ EmptyString → pretty_N_go x s ≠ EmptyString.
Proof.
  induction (N.lt_wf_0 x) as [x _ IH]; intros s Hs.
  assert (x = 0 ∨ 0 < x)%N as [->|Hx] by lia; [by rewrite pretty_N_go_0|].
  rewrite pretty_N_go_step by done. apply IH; [by apply N.div_lt | done].
Qed.

Lemma pretty_pos_good (p : positive) :
  pretty p ≠ EmptyString ∧ hasChar comma (pretty p) = false.
Proof.
  unfold pretty, pretty_positive, pretty, pretty_N.
  destruct (decide (N.pos p = 0%N)); [done|]. split.
  - rewrite pretty_N_go_step by lia. by apply pretty_N_go_nonempty.
  - by rewrite pretty_N_go_comma.
Qed.

Lemma itoa_good (v : Z) :
  itoa v ≠ EmptyString ∧ hasChar comma (itoa v) = false.
Proof.
  unfold itoa, pretty, pretty_Z. destruct v as [|p|p].
  - done.
  - apply pretty_pos_good.
  - destruct (pretty_pos_good p) as [_ Hc]. split; [done|].
    simpl. exact Hc.
Qed.

Lemma append_comma_split (s : string) :
  ∀ s' r r',
    hasChar comma s = false → hasChar comma s' = false →
    (r = EmptyString ∨ ∃ t, r = String comma t) →
    (r' = EmptyString ∨ ∃ t, r' = String comma t) →
    s +:+ r = s' +:+ r' → s = s' ∧ r = r'.
Proof.
  induction s as [|c s IH]; intros [|d s'] r r' Hs Hs' Hr Hr' H.
  - done.
  - change (r = String d (s' +:+ r')) in H. subst r.
    simpl in Hs'. apply orb_false_elim in Hs' as [Hd _].
    destruct Hr as [?|[t [= -> _]]]; [done|]. by rewrite Ascii.eqb_refl in Hd.
  - change (String c (s +:+ r) = r') in H. subst r'.
    simpl in Hs. apply orb_false_elim in Hs as [Hc _].
    destruct Hr' as [?|[t [= -> _]]]; [done|]. by rewrite Ascii.eqb_refl in Hc.
  - change (String c (s +:+ r) = String d (s' +:+ r')) in H.
    injection H as -> H. simpl in Hs, Hs'.
    apply orb_false_elim in Hs as [_ Hs]. apply orb_false_elim in Hs' as [_ Hs'].
    destruct (IH _ _ _ Hs Hs' Hr Hr' H) as [-> ->]. done.
Qed.

Lemma concat_cons (sep x : string) (xs : list string) :
  String.concat sep (x :: xs)
  = x +:+ match xs with [] => EmptyString | _ => sep +:+ String.concat sep xs end.
Proof.
  destruct xs; simpl; [|done]. induction x as [|c x IH]; [done|].
  change (String c x = String c (x +:+ EmptyString)). by rewrite <- IH.
Qed.

Lemma concat_comma_inj (l : list string) :
  ∀ l',
    Forall (λ s, s ≠ EmptyString ∧ hasChar comma s = false) l →
    Forall (λ s, s ≠ EmptyString ∧ hasChar comma s = false) l' →
    String.concat ", " l = String.concat ", " l' → l = l'.
Proof.
  induction l as [|x xs IH]; intros [|y ys] Hl Hl'.
  - done.
  - apply Forall_cons in Hl' as [[Hy _] _]. rewrite concat_cons.
    destruct y; [done | discriminate].
  - apply Forall_cons in Hl as [[Hx _] _]. rewrite concat_cons.
    destruct x; [done | discriminate].
  - apply Forall_cons in Hl as [[_ Hx] Hxs].
    apply Forall_cons in Hl' as [[_ Hy] Hys].
    rewrite !concat_cons. intros H.
    apply append_comma_split in H as [-> Hrest]; [|done|done|..].
    + destruct xs as [|x' xs], ys as [|y' ys]; try discriminate; [done|].
      injection Hrest as Hrest. f_equal. by apply IH.
    + destruct xs; [by left | right; by eexists].
    + destruct ys; [by left | right; by eexists].
Qed.

(** X18. The id list printed in id-list mode determines the ids:
    different id sequences give different lines. *)
Theorem intsToString_inj (a b : list Z) :
  a ≠ b → intsToString a ", " ≠ intsToString b ", ".
Proof.
  intros Hne Heq. apply Hne. clear Hne.
  assert (∀ l : list Z,
            Forall (λ s, s ≠ EmptyString ∧ hasChar comma s = false) (itoa <$> l))
    as Hgood.
  { intros l. apply Forall_fmap, Forall_forall. intros v _. apply itoa_good. }
  assert (itoa <$> a = itoa <$> b) as Hmap.
  { apply concat_comma_inj; [apply Hgood..|].
    by destruct a as [|x a], b as [|y b]. }
  clear Heq. revert b Hmap. induction a as [|x a IH]; intros [|y b]; try done.
  rewrite !fmap_cons. intros [= Hxy H]. f_equal; [|by apply IH].
  by apply (inj pretty).
Qed.

Lemma intsToString_inj_witness :
  intsToString [1; 23] ", " ≠ intsToString [12; 3] ", ".
Proof. apply intsToString_inj. discriminate. Defined.

(** ** The run *)

Lemma childrenLoop_leaf (m : mysql) (rec : Z → list Z → option (list Z))
    (pid : Z) :
  0 < pid →
  (∀ x, pages m !! x ≠ Some pid) →
  ∀ ks acc, childrenLoop rec m pid ks acc = Some acc.
Proof.
  intros Hpid Hleaf. induction ks as [|u ks IH]; intros acc; simpl; [done|].
  destruct (pages m !! u) as [p|] eqn:E; cbn [default from_option id].
  - destruct (Z.eqb_spec p pid) as [->|_]; [by destruct (Hleaf u) | apply IH].
  - destruct (Z.eqb_spec 0 pid); [lia | apply IH].
Qed.

(** X20. Asking for the children of a page that has none, with no query
    and no root transform, selects nothing: the run ends with the fatal
    error of the empty selection, in both output modes, whatever the
    rest of the parent map and the order of the loop. *)
Theorem children_of_leaf_is_fatal (fuel : nat) (order : rangeOrder) (db : DB)
    (m : mysql) (fl : Flags) :
  (0 < fuel)%nat →
  0 < f_pid fl →
  f_children fl = true →
  f_roots fl = false →
  f_query fl = EmptyString →
  (∀ x, pages m !! x ≠ Some (f_pid fl)) →
  mainOn fuel order db m fl = Some (Err NoUids).
Proof.
  intros Hfuel Hpid Hc Hr Hq Hleaf.
  unfold mainOn, selectUids, selectPid.
  destruct (Z.ltb_spec 0 (f_pid fl)); [|lia]. rewrite Hc, Hr.
  destruct fuel as [|fuel]; [lia|]. cbn [children].
  rewrite childrenLoop_leaf by done. simpl.
  by destruct (decide (f_query fl = EmptyString)).
Qed.

Lemma children_of_leaf_is_fatal_witness :
  mainOn 1 (fixedOrder looped) shopDB looped
    {| f_pid := 3; f_dsn := "dsn"; f_query := EmptyString; f_nassoc := 0;
       f_children := true; f_roots := false; f_csv := true |}
  = Some (Err NoUids).
Proof.
  apply children_of_leaf_is_fatal;
    [lia | reflexivity | reflexivity | reflexivity | reflexivity |].
  assert (map_Forall (λ _ p, p ≠ 3) (pages looped)) as Hno
    by (apply (bool_decide_unpack _); vm_compute; reflexivity).
  intros x Hx. by apply (Hno x 3 Hx).
Defined.

(** ** The two versions *)

Lemma childrenLoop_ext (m m' : mysql) (rec rec' : Z → list Z → option (list Z))
    (y : Z) :
  pages m' = pages m →
  (∀ u acc, rec' u acc = rec u acc) →
  ∀ ks acc, childrenLoop rec' m' y ks acc = childrenLoop rec m y ks acc.
Proof.
  intros Hp Hrec. induction ks as [|u ks IH]; intros acc; simpl; [done|].
  rewrite Hp, Hrec. destruct (default 0 (pages m !! u) =? y); [|apply IH].
  destruct (rec u (acc ++ [u])); [apply IH | done].
Qed.

Lemma children_ext (m m' : mysql) (order : rangeOrder) (fuel : nat) :
  pages m' = pages m →
  ∀ y acc, children fuel order m' y acc = children fuel order m y acc.
Proof.
  intros Hp. induction fuel as [|fuel IH]; intros y acc; simpl; [done|].
  by apply childrenLoop_ext.
Qed.

Lemma childrenEach_ext (m m' : mysql) (fuel : nat) (order : rangeOrder)
    (qids : list Z) :
  pages m' = pages m →
  ∀ acc, childrenEach fuel order m' qids acc = childrenEach fuel order m qids acc.
Proof.
  intros Hp. induction qids as [|q qids IH]; intros acc; simpl; [done|].
  rewrite (children_ext m m') by done.
  destruct (children fuel order m q acc); simpl; [apply IH | done].
Qed.

Lemma rootEach_ext (m m' : mysql) (fuel : nat) (qids : list Z) :
  pages m' = pages m → roots m' = roots m →
  ∀ acc, rootEach fuel m' qids acc = rootEach fuel m qids acc.
Proof.
  intros Hp Hr. induction qids as [|q qids IH]; intros acc; simpl; [done|].
  rewrite (root_ext m m') by done.
  destruct (root fuel m q); simpl; [apply IH | done].
Qed.

Lemma selectQids_ext (m m' : mysql) (fuel : nat) (order : rangeOrder)
    (fl : Flags) (qids uids : list Z) :
  pages m' = pages m → roots m' = roots m →
  selectQids fuel order m' fl qids uids = selectQids fuel order m fl qids uids.
Proof.
  intros Hp Hr. unfold selectQids.
  rewrite (childrenEach_ext m m') by done.
  destruct (f_children fl), (f_roots fl); simpl;
    try destruct (childrenEach fuel order m qids uids); simpl;
    by rewrite ?(rootEach_ext m m').
Qed.

Lemma queryRows_zero_earlier (rows : list QueryRow) :
  ∀ m acc,
    match EarlierRun.queryRows rows acc with
    | Ok uids => ∃ m', queryRows 0 rows m acc = Ok (uids, m')
    | Err e => queryRows 0 rows m acc = Err e
    end.
Proof.
  induction rows as [|r rows IH]; intros m acc; simpl; [by exists m|].
  destruct (scanRow 0 r) as [[uid data]|]; [apply IH | done].
Qed.

Lemma urlLoop_zero_earlier (fuel : nat) (m m' : mysql) (uids : list Z) :
  pages m' = pages m → roots m' = roots m → domains m' = domains m →
  ∀ fields out,
    urlLoop fuel 0 m' uids fields out
    = (λ o, Ok (fields, o)) <$> EarlierRun.urlLoop fuel m uids out.
Proof.
  intros Hp Hr Hd. induction uids as [|uid uids IH]; intros fields out; simpl;
    [done|].
  rewrite (root_ext m m') by done. destruct (root fuel m uid) as [rid|]; [|done].
  unfold domain. rewrite Hd.
  destruct (decide (default EmptyString (domains m !! rid) = EmptyString));
    apply IH.
Qed.

Lemma output_zero_earlier (fuel : nat) (m m' : mysql) (fl : Flags)
    (uids : list Z) :
  f_nassoc fl = 0 →
  pages m' = pages m → roots m' = roots m → domains m' = domains m →
  output fuel m' fl uids = EarlierRun.output fuel m fl uids.
Proof.
  intros Hn Hp Hr Hd. unfold output, EarlierRun.output, makeStrings.
  destruct (f_csv fl); [done|]. rewrite Hn.
  change (wrap64 (0 + 1)) with 1. simpl.
  rewrite (urlLoop_zero_earlier fuel m m') by done.
  by destruct (EarlierRun.urlLoop fuel m uids []).
Qed.

(** X21. With no associated column asked for, the run of the second
    version, from the selection on, ends exactly as the run of the first
    version on the same index and data source: the same lines or the same
    error, and it returns when the first one does. *)
Theorem versions_agree (fuel : nat) (order : rangeOrder) (db : DB)
    (m : mysql) (fl : Flags) :
  f_nassoc fl = 0 →
  mainOn fuel order db m fl = EarlierRun.mainOn fuel order db m fl.
Proof.
  intros Hn. unfold mainOn, EarlierRun.mainOn, selectUids, EarlierRun.selectUids.
  destruct (selectPid fuel order m fl) as [u0|]; [|done]. simpl.
  destruct (decide (f_query fl = EmptyString)).
  - destruct u0; [done|]. by apply output_zero_earlier.
  - unfold query, EarlierRun.query. rewrite Hn.
    destruct (db_query db (f_query fl)) as [rows|e]; [|done]. simpl.
    change (Z.to_nat 0) with 0%nat.
    pose proof (queryRows_zero_earlier rows m []) as H.
    destruct (EarlierRun.queryRows rows []) as [qids|e]; [|by rewrite H].
    destruct H as [m' H]. rewrite H.
    destruct (queryRows_frame _ _ _ _ _ _ H) as (Hp & Hd & Hr).
    rewrite (selectQids_ext m m') by done.
    destruct (selectQids fuel order m fl qids u0) as [uids|]; [|done]. simpl.
    destruct uids; [done|]. by apply output_zero_earlier.
Qed.

Lemma versions_agree_witness :
  mainOn 5 (fixedOrder shopIndex) (queryDB [bareRow 1; bareRow 4]) shopIndex
    shopFlags
  = EarlierRun.mainOn 5 (fixedOrder shopIndex) (queryDB [bareRow 1; bareRow 4])
      shopIndex shopFlags.
Proof. apply versions_agree. reflexivity. Defined.
